(** * Deploy-Nodejs: the authentication service over its MySQL store

    A shallow embedding of [src/db/connection.js] and
    [src/services/authService.js].

    - JavaScript exceptions and the mutable store are threaded through a
      state-and-exception monad [M S A := S -> Result A * S]: unlike a
      state transformer over an error monad, a computation that throws
      keeps the state changes made before the throw, as JavaScript does.
    - [try/catch/finally] are combinators of that monad; a function's
      [let connection;] lives in a [Frame] next to the world.
    - The store is two tables held as lists in insertion order (the code
      reads [rows[0]], so order matters).  SQL [=] on the text columns is
      exact string equality, as [===] is in the code.
    - One clock, in milliseconds, serves [new Date()] and
      [CURRENT_TIMESTAMP]; a request reads one instant throughout.
    - The mysql2 driver may fault on any call; which calls do is scripted
      in the world, so every property is stated for the script it needs
      (for all scripts, or for a world with no fault pending).
    - [await] is sequencing: one request runs at a time.
    - bcrypt and [utils/jwt] are not part of the sources: the service takes
      them as parameters.  The table definitions are not part of the
      sources either: the constraints are those of the specification. *)

From Stdlib Require Import ZArith List String Bool Lia DecimalString.
Import ListNotations.

Open Scope string_scope.
Open Scope list_scope.
Open Scope Z_scope.

(** ** Errors, results and the monad *)

(** A thrown value. [JsError m] is [new Error(m)] raised by the service's
    own code; [DriverError c] is whatever the mysql2 driver rejects with
    (connectivity fault, constraint violation); [JwtError] is what the
    token library throws on a token it does not accept. *)
Inductive Error : Type :=
| JsError (message : string)
| DriverError (code : string)
| JwtError.

Inductive Result (A : Type) : Type :=
| Ok (a : A)
| Throw (e : Error).
Arguments Ok {A} a.
Arguments Throw {A} e.

Definition M (S A : Type) : Type := S -> Result A * S.

Definition ret {S A} (a : A) : M S A := fun s => (Ok a, s).

Definition throw {S A} (e : Error) : M S A := fun s => (Throw e, s).

Definition bind {S A B} (m : M S A) (k : A -> M S B) : M S B :=
  fun s =>
    match m s with
    | (Ok a, s') => k a s'
    | (Throw e, s') => (Throw e, s')
    end.

(** [try { body } catch (e) { handler e }] *)
Definition try_catch {S A} (body : M S A) (handler : Error -> M S A) : M S A :=
  fun s =>
    match body s with
    | (Ok a, s') => (Ok a, s')
    | (Throw e, s') => handler e s'
    end.

(** [try { body } finally { fin }]: [fin] runs on both exits; when [fin]
    itself throws, its error replaces the outcome of [body]. *)
Definition try_finally {S A} (body : M S A) (fin : M S unit) : M S A :=
  fun s =>
    match body s with
    | (r, s') =>
        match fin s' with
        | (Ok _, s'') => (r, s'')
        | (Throw e, s'') => (Throw e, s'')
        end
    end.

Definition try_catch_finally {S A}
  (body : M S A) (handler : Error -> M S A) (fin : M S unit) : M S A :=
  try_finally (try_catch body handler) fin.

Declare Scope monad_scope.
Delimit Scope monad_scope with monad.
Notation "x <- m ;; k" := (bind m (fun x => k))
  (at level 61, m at next level, right associativity) : monad_scope.
Notation "m ;; k" := (bind m (fun _ => k))
  (at level 61, right associativity) : monad_scope.
Open Scope monad_scope.

(** ** The persisted schema *)

(** A row of HMS_USERS. *)
Module U.
Record row : Type := mk {
  ID : Z;
  USERNAME : string;
  EMAIL : string;
  PASSWORD_HASH : string;
  CREATED_AT : Z;
  UPDATED_AT : Z
}.
End U.

(** A row of HMS_REFRESH_TOKENS. [IS_REVOKED] holds 0 or 1 in the store;
    [false] is 0. *)
Module RT.
Record row : Type := mk {
  USER_ID : Z;
  TOKEN : string;
  EXPIRES_AT : Z;
  CREATED_AT : Z;
  IS_REVOKED : bool
}.
End RT.

(** A row of the join selected by [checkTokenSql]:
    [U.ID AS USER_ID, U.USERNAME, U.EMAIL]. *)
Module TokenData.
Record row : Type := mk {
  USER_ID : Z;
  USERNAME : string;
  EMAIL : string
}.
End TokenData.

(** The database: both tables in insertion order and the counter that
    assigns HMS_USERS.ID. *)
Record Db : Type := mkDb {
  HMS_USERS : list U.row;
  HMS_REFRESH_TOKENS : list RT.row;
  AUTO_INCREMENT : Z
}.

Definition empty_db : Db :=
  {| HMS_USERS := []; HMS_REFRESH_TOKENS := []; AUTO_INCREMENT := 1 |}.

(** ** The SQL statements of authService.js

    One constructor per statement text, carrying its named bind values and
    indexed by the type of the rows it yields.  Column comparison is exact
    string equality. *)
Inductive Statement : Type -> Type :=
| checkUserSql (username email : string) : Statement (list U.row)
| insertUserSql (username email passwordHash : string) : Statement unit
| getUserSql (username : string) : Statement (list U.row)
| loginGetUserSql (username : string) : Statement (list U.row)
| insertTokenSql (userId : Z) (token : string) (expiresAt : Z) : Statement unit
| checkTokenSql (token : string) : Statement (list TokenData.row)
| revokeSql (token : string) : Statement unit
| getUserByIdSql (userId : Z) : Statement (list U.row).

(** [WHERE USERNAME = :username OR EMAIL = :email] *)
Definition matches_user (username email : string) (r : U.row) : bool :=
  (U.USERNAME r =? username)%string || (U.EMAIL r =? email)%string.

(** [WHERE RT.TOKEN = :token AND RT.IS_REVOKED = 0
      AND RT.EXPIRES_AT > CURRENT_TIMESTAMP] *)
Definition active (now : Z) (token : string) (rt : RT.row) : bool :=
  (RT.TOKEN rt =? token)%string && negb (RT.IS_REVOKED rt) && (now <? RT.EXPIRES_AT rt).

(** [JOIN HMS_USERS U ON RT.USER_ID = U.ID], projected. *)
Definition join_user (users : list U.row) (rt : RT.row) : list TokenData.row :=
  map (fun u => {| TokenData.USER_ID := U.ID u;
                   TokenData.USERNAME := U.USERNAME u;
                   TokenData.EMAIL := U.EMAIL u |})
      (filter (fun u => RT.USER_ID rt =? U.ID u) users).

(** [SET IS_REVOKED = 1 WHERE TOKEN = :token AND IS_REVOKED = 0] *)
Definition revoke_row (token : string) (rt : RT.row) : RT.row :=
  if (RT.TOKEN rt =? token)%string && negb (RT.IS_REVOKED rt)
  then {| RT.USER_ID := RT.USER_ID rt; RT.TOKEN := RT.TOKEN rt;
          RT.EXPIRES_AT := RT.EXPIRES_AT rt; RT.CREATED_AT := RT.CREATED_AT rt;
          RT.IS_REVOKED := true |}
  else rt.

(** Modelled from the spec: the DDL of HMS_USERS is not part of the
    sources.  The specification gives the logical schema
    Users(id PK, username UNIQUE, email UNIQUE) with a server-assigned id:
    an INSERT that repeats a username or an email is rejected by the store
    and changes nothing. *)
Definition user_insert_rejected (d : Db) (username email : string) : bool :=
  existsb (matches_user username email) (HMS_USERS d).

(** Modelled from the spec: the DDL of HMS_REFRESH_TOKENS is not part of
    the sources.  The specification gives the logical schema
    RefreshTokens(userId FK to Users.id, token UNIQUE): an INSERT that
    repeats a token or names no user is rejected by the store and changes
    nothing. *)
Definition token_insert_rejected (d : Db) (userId : Z) (token : string) : bool :=
  existsb (fun rt => (RT.TOKEN rt =? token)%string) (HMS_REFRESH_TOKENS d)
  || negb (existsb (fun u => userId =? U.ID u) (HMS_USERS d)).

(** The rows [checkTokenSql] selects: the active rows of the token, each
    joined with its owner. *)
Definition findActive (now : Z) (token : string) (d : Db) : list TokenData.row :=
  flat_map (join_user (HMS_USERS d))
           (filter (active now token) (HMS_REFRESH_TOKENS d)).

(** What the store does with a statement at time [now]: the rows and the
    new database, or the code of the constraint violation. *)
Definition run_statement {A} (s : Statement A) (now : Z) (d : Db)
  : string + A * Db :=
  match s with
  | checkUserSql username email =>
      inr (filter (matches_user username email) (HMS_USERS d), d)
  | insertUserSql username email passwordHash =>
      if user_insert_rejected d username email then inl "ER_DUP_ENTRY"
      else inr (tt,
        {| HMS_USERS := HMS_USERS d ++
             [ {| U.ID := AUTO_INCREMENT d; U.USERNAME := username;
                  U.EMAIL := email; U.PASSWORD_HASH := passwordHash;
                  U.CREATED_AT := now; U.UPDATED_AT := now |} ];
           HMS_REFRESH_TOKENS := HMS_REFRESH_TOKENS d;
           AUTO_INCREMENT := AUTO_INCREMENT d + 1 |})
  | getUserSql username =>
      inr (filter (fun r => (U.USERNAME r =? username)%string) (HMS_USERS d), d)
  | loginGetUserSql username =>
      inr (filter (matches_user username username) (HMS_USERS d), d)
  | insertTokenSql userId token expiresAt =>
      if token_insert_rejected d userId token then inl "ER_CONSTRAINT"
      else inr (tt,
        {| HMS_USERS := HMS_USERS d;
           HMS_REFRESH_TOKENS := HMS_REFRESH_TOKENS d ++
             [ {| RT.USER_ID := userId; RT.TOKEN := token;
                  RT.EXPIRES_AT := expiresAt; RT.CREATED_AT := now;
                  RT.IS_REVOKED := false |} ];
           AUTO_INCREMENT := AUTO_INCREMENT d |})
  | checkTokenSql token => inr (findActive now token d, d)
  | revokeSql token =>
      inr (tt,
        {| HMS_USERS := HMS_USERS d;
           HMS_REFRESH_TOKENS := map (revoke_row token) (HMS_REFRESH_TOKENS d);
           AUTO_INCREMENT := AUTO_INCREMENT d |})
  | getUserByIdSql userId =>
      inr (filter (fun r => U.ID r =? userId) (HMS_USERS d), d)
  end.

(** ** The world outside the functions *)

Definition Conn : Type := nat.

(** What the process does to its environment, most recent first:
    [EvAcquire c] is a connection obtained from the pool, the other
    connection events are the calls made on it (recorded when the call is
    made, whether or not the driver then faults). *)
Inductive Event : Type :=
| EvCreatePool
| EvAcquire (c : Conn)
| EvExecute (c : Conn)
| EvBegin (c : Conn)
| EvCommit (c : Conn)
| EvRollback (c : Conn)
| EvRelease (c : Conn)
| EvConsole
| EvHash (data : string)
| EvCompare (data : string).

(** Whether the next call into the driver goes through. *)
Inductive Outcome : Type :=
| Succeeds
| Faults (code : string).

(** [pool] is connection.js's module variable; [leased] the connections
    handed out and not yet released; [schedule] scripts the outcome of the
    coming driver calls (an exhausted script means no more faults);
    [salts] counts the salts bcrypt has drawn. *)
Record World : Type := mkWorld {
  db : Db;
  clock : Z;
  pool : bool;
  leased : list Conn;
  next_conn : Conn;
  schedule : list Outcome;
  salts : nat;
  trace : list Event
}.

Definition set_db (d : Db) (w : World) : World :=
  mkWorld d (clock w) (pool w) (leased w) (next_conn w) (schedule w) (salts w) (trace w).
Definition set_pool (b : bool) (w : World) : World :=
  mkWorld (db w) (clock w) b (leased w) (next_conn w) (schedule w) (salts w) (trace w).
Definition set_leased (l : list Conn) (w : World) : World :=
  mkWorld (db w) (clock w) (pool w) l (next_conn w) (schedule w) (salts w) (trace w).
Definition set_next_conn (c : Conn) (w : World) : World :=
  mkWorld (db w) (clock w) (pool w) (leased w) c (schedule w) (salts w) (trace w).
Definition set_schedule (sc : list Outcome) (w : World) : World :=
  mkWorld (db w) (clock w) (pool w) (leased w) (next_conn w) sc (salts w) (trace w).
Definition set_salts (n : nat) (w : World) : World :=
  mkWorld (db w) (clock w) (pool w) (leased w) (next_conn w) (schedule w) n (trace w).
Definition emit (e : Event) (w : World) : World :=
  mkWorld (db w) (clock w) (pool w) (leased w) (next_conn w) (schedule w) (salts w)
          (e :: trace w).

Definition healthy (w : World) : Prop := schedule w = [].

(** A call into the driver: consumes one scripted outcome. *)
Definition driver_call : M World unit :=
  fun w =>
    match schedule w with
    | [] => (Ok tt, w)
    | Succeeds :: rest => (Ok tt, set_schedule rest w)
    | Faults code :: rest => (Throw (DriverError code), set_schedule rest w)
    end.

Definition effect (f : World -> World) : M World unit :=
  fun w => (Ok tt, f w).

Definition console : M World unit := effect (emit EvConsole).

(** ** src/db/connection.js *)

(** [mysql.createPool(...)] assigned to [pool]. *)
Definition initializePool : M World unit :=
  try_catch
    (driver_call ;;
     effect (fun w => emit EvCreatePool (set_pool true w)) ;;
     console)
    (fun error => console ;; throw error).

(** [pool.getConnection()] *)
Definition pool_getConnection : M World Conn :=
  driver_call ;;
  (fun w =>
     let c := next_conn w in
     (Ok c, emit (EvAcquire c) (set_next_conn (S c) (set_leased (c :: leased w) w)))).

Definition getConnection : M World Conn :=
  (fun w => if pool w then ret tt w else initializePool w) ;;
  pool_getConnection.

(** [pool.end()] and [pool = null], when there is a pool. *)
Definition closePool : M World unit :=
  fun w =>
    if pool w
    then (driver_call ;; effect (set_pool false) ;; console) w
    else ret tt w.

(** [connection.execute(sql, params)] *)
Definition connection_execute {A} (c : Conn) (sql : Statement A) : M World A :=
  effect (emit (EvExecute c)) ;;
  driver_call ;;
  (fun w =>
     match run_statement sql (clock w) (db w) with
     | inl code => (Throw (DriverError code), w)
     | inr (rows, d) => (Ok rows, set_db d w)
     end).

Definition connection_beginTransaction (c : Conn) : M World unit :=
  effect (emit (EvBegin c)) ;; driver_call.

Definition connection_commit (c : Conn) : M World unit :=
  effect (emit (EvCommit c)) ;; driver_call.

Definition connection_rollback (c : Conn) : M World unit :=
  effect (emit (EvRollback c)) ;; driver_call.

(** [connection.release()] *)
Definition connection_release (c : Conn) : M World unit :=
  effect (fun w => emit (EvRelease c) (set_leased (remove Nat.eq_dec c (leased w)) w)).

(** The activation record of [executeQuery] and [executeTransaction]:
    the local [let connection;] beside the world. *)
Record Frame : Type := mkFrame {
  connection : option Conn;
  world : World
}.

Definition lift {A} (m : M World A) : M Frame A :=
  fun f =>
    match m (world f) with
    | (r, w) => (r, mkFrame (connection f) w)
    end.

Definition assign_connection (c : Conn) : M Frame unit :=
  fun f => (Ok tt, mkFrame (Some c) (world f)).

(** [if (connection) { k connection }] *)
Definition if_connection (k : Conn -> M World unit) : M Frame unit :=
  fun f =>
    match connection f with
    | Some c => lift (k c) f
    | None => (Ok tt, f)
    end.

Definition call {A} (body : M Frame A) : M World A :=
  fun w =>
    match body (mkFrame None w) with
    | (r, f) => (r, world f)
    end.

Definition executeQuery {A} (sql : Statement A) : M World A :=
  call
    (try_catch_finally
       (c <- lift getConnection ;;
        assign_connection c ;;
        rows <- lift (connection_execute c sql) ;;
        ret rows)
       (fun error => lift console ;; throw error)
       (if_connection connection_release)).

Definition executeTransaction {A} (callback : Conn -> M World A) : M World unit :=
  call
    (try_catch_finally
       (c <- lift getConnection ;;
        assign_connection c ;;
        lift (connection_beginTransaction c) ;;
        lift (callback c) ;;
        lift (connection_commit c))
       (fun error => if_connection connection_rollback ;; throw error)
       (if_connection connection_release)).

(** ** The primitives the service is built on

    bcrypt and the token helpers of [utils/jwt] are outside the sources;
    the service is parameterised by them.  [hash_with_salt] makes the salt
    that [bcrypt.hash] draws explicit; the token functions get the time
    at which they run. *)

Module AccessClaims.
Record t : Type := mk { userId : Z; username : string; email : string }.
End AccessClaims.

Module RefreshClaims.
Record t : Type := mk { userId : Z }.
End RefreshClaims.

Record Primitives : Type := mkPrimitives {
  hash_with_salt : nat -> string -> Z -> string;
  compare_hash : string -> string -> bool;
  sign_access : Z -> AccessClaims.t -> string;
  sign_refresh : Z -> RefreshClaims.t -> string;
  verify_refresh : Z -> string -> option RefreshClaims.t
}.

(** ** What the service returns *)

Module User.
Record t : Type := mk { id : Z; username : string; email : string }.
End User.

Module Registered.
Record t : Type := mk { id : Z; username : string; email : string; createdAt : Z }.
End Registered.

Module Session.
Record t : Type := mk { user : User.t; accessToken : string; refreshToken : string }.
End Session.

Module Refreshed.
Record t : Type := mk { accessToken : string; user : User.t }.
End Refreshed.

Module Profile.
Record t : Type := mk {
  id : Z; username : string; email : string; createdAt : Z; updatedAt : Z
}.
End Profile.

(** The error kinds of the specification, as the messages the code throws. *)
Definition DuplicateUsername : Error := JsError "Username already exists".
Definition DuplicateEmail : Error := JsError "Email already exists".
Definition CreationFailed : Error := JsError "Failed to create user".
Definition InvalidCredentials : Error := JsError "Invalid credentials".
Definition MissingToken : Error := JsError "Refresh token is required".
Definition InvalidOrExpiredToken : Error := JsError "Invalid or expired refresh token".
Definition UserNotFound : Error := JsError "User not found".

(** JavaScript truthiness of an argument that is [undefined] or a string:
    [!refreshToken] holds for [undefined] and for the empty string. *)
Definition truthy (v : option string) : bool :=
  match v with
  | None => false
  | Some s => negb (s =? "")%string
  end.

(** The string a truthy argument is bound to. *)
Definition text (v : option string) : string :=
  match v with
  | None => ""
  | Some s => s
  end.

(** [expiresAt.setDate(expiresAt.getDate() + n)] on a clock in
    milliseconds, in a time zone without a clock change in between. *)
Definition addDays (t : Z) (n : Z) : Z := t + n * 86400000.

(** ** src/services/authService.js *)

Section AuthService.

Context (K : Primitives).

Definition SALT_ROUNDS : Z := 10.

(** [bcrypt.hash(data, rounds)] *)
Definition bcrypt_hash (data : string) (rounds : Z) : M World string :=
  fun w =>
    (Ok (hash_with_salt K (salts w) data rounds),
     emit (EvHash data) (set_salts (S (salts w)) w)).

(** [bcrypt.compare(data, encrypted)] *)
Definition bcrypt_compare (data encrypted : string) : M World bool :=
  fun w => (Ok (compare_hash K data encrypted), emit (EvCompare data) w).

Definition generateAccessToken (payload : AccessClaims.t) : M World string :=
  fun w => (Ok (sign_access K (clock w) payload), w).

Definition generateRefreshToken (payload : RefreshClaims.t) : M World string :=
  fun w => (Ok (sign_refresh K (clock w) payload), w).

Definition verifyRefreshToken (token : string) : M World RefreshClaims.t :=
  fun w =>
    match verify_refresh K (clock w) token with
    | Some claims => (Ok claims, w)
    | None => (Throw JwtError, w)
    end.

(** [new Date()] *)
Definition new_Date : M World Z := fun w => (Ok (clock w), w).

Definition registerUser (username email password : string) : M World Registered.t :=
  existingUsers <- executeQuery (checkUserSql username email) ;;
  match existingUsers with
  | existing :: _ =>
      if (U.USERNAME existing =? username)%string then throw DuplicateUsername
      else if (U.EMAIL existing =? email)%string then throw DuplicateEmail
      else ret tt
  | [] => ret tt
  end ;;
  passwordHash <- bcrypt_hash password SALT_ROUNDS ;;
  executeQuery (insertUserSql username email passwordHash) ;;
  users <- executeQuery (getUserSql username) ;;
  match users with
  | [] => throw CreationFailed
  | user :: _ =>
      ret {| Registered.id := U.ID user;
             Registered.username := U.USERNAME user;
             Registered.email := U.EMAIL user;
             Registered.createdAt := U.CREATED_AT user |}
  end.

Definition loginUser (username password : string) : M World Session.t :=
  users <- executeQuery (loginGetUserSql username) ;;
  match users with
  | [] => throw InvalidCredentials
  | user :: _ =>
      isPasswordValid <- bcrypt_compare password (U.PASSWORD_HASH user) ;;
      if negb isPasswordValid then throw InvalidCredentials
      else
        accessToken <- generateAccessToken
          {| AccessClaims.userId := U.ID user;
             AccessClaims.username := U.USERNAME user;
             AccessClaims.email := U.EMAIL user |} ;;
        refreshToken <- generateRefreshToken {| RefreshClaims.userId := U.ID user |} ;;
        now <- new_Date ;;
        let expiresAt := addDays now 7 in
        executeQuery (insertTokenSql (U.ID user) refreshToken expiresAt) ;;
        ret {| Session.user :=
                 {| User.id := U.ID user;
                    User.username := U.USERNAME user;
                    User.email := U.EMAIL user |};
               Session.accessToken := accessToken;
               Session.refreshToken := refreshToken |}
  end.

Definition refreshAccessToken (refreshToken : option string) : M World Refreshed.t :=
  if negb (truthy refreshToken) then throw MissingToken
  else
    try_catch
      (verifyRefreshToken (text refreshToken) ;; ret tt)
      (fun _ => throw InvalidOrExpiredToken) ;;
    tokens <- executeQuery (checkTokenSql (text refreshToken)) ;;
    match tokens with
    | [] => throw InvalidOrExpiredToken
    | tokenData :: _ =>
        accessToken <- generateAccessToken
          {| AccessClaims.userId := TokenData.USER_ID tokenData;
             AccessClaims.username := TokenData.USERNAME tokenData;
             AccessClaims.email := TokenData.EMAIL tokenData |} ;;
        ret {| Refreshed.accessToken := accessToken;
               Refreshed.user :=
                 {| User.id := TokenData.USER_ID tokenData;
                    User.username := TokenData.USERNAME tokenData;
                    User.email := TokenData.EMAIL tokenData |} |}
    end.

Definition logoutUser (refreshToken : option string) : M World unit :=
  if negb (truthy refreshToken) then ret tt
  else executeQuery (revokeSql (text refreshToken)).

Definition getUserById (userId : Z) : M World Profile.t :=
  users <- executeQuery (getUserByIdSql userId) ;;
  match users with
  | [] => throw UserNotFound
  | user :: _ =>
      ret {| Profile.id := U.ID user;
             Profile.username := U.USERNAME user;
             Profile.email := U.EMAIL user;
             Profile.createdAt := U.CREATED_AT user;
             Profile.updatedAt := U.UPDATED_AT user |}
  end.

End AuthService.

(** ** The service as a state machine *)

(** The requests the service answers, and the world each leaves behind. *)
Inductive Request : Type :=
| Register (username email password : string)
| Login (username password : string)
| Refresh (refreshToken : option string)
| Logout (refreshToken : option string)
| GetUserById (userId : Z).

(** The world a request leaves behind. *)
Definition handle (K : Primitives) (q : Request) (w : World) : World :=
  match q with
  | Register username email password => snd (registerUser K username email password w)
  | Login username password => snd (loginUser K username password w)
  | Refresh refreshToken => snd (refreshAccessToken K refreshToken w)
  | Logout refreshToken => snd (logoutUser refreshToken w)
  | GetUserById userId => snd (getUserById userId w)
  end.

(** Worlds reachable from a world: the service answers requests, and in
    between the environment may change anything but the database (time
    passes, faults get scheduled). *)
Inductive steps (K : Primitives) : World -> World -> Prop :=
| steps_done w : steps K w w
| steps_request q w w' : steps K (handle K q w) w' -> steps K w w'
| steps_env w0 w w' : db w = db w0 -> steps K w w' -> steps K w0 w'.

(** ** Observations and invariants *)

(** The data bcrypt has been asked to hash, most recent first. *)
Fixpoint hashed (t : list Event) : list string :=
  match t with
  | [] => []
  | EvHash data :: t' => data :: hashed t'
  | _ :: t' => hashed t'
  end.

(** The outcome of a statement as [executeQuery] reports it when no driver
    call faults. *)
Definition statement_result {A} (sql : Statement A) (w : World) : Result A :=
  match run_statement sql (clock w) (db w) with
  | inl code => Throw (DriverError code)
  | inr (rows, _) => Ok rows
  end.

Definition statement_db {A} (sql : Statement A) (w : World) : Db :=
  match run_statement sql (clock w) (db w) with
  | inl _ => db w
  | inr (_, d) => d
  end.

(** A computation respects a relation on worlds when the world it leaves
    is related to the one it started in, whatever it returns. *)
Definition respects (R : World -> World -> Prop) {A} (m : M World A) : Prop :=
  forall w, R w (snd (m w)).

(** The database changes only by statements the store accepted. *)
Inductive evolves : Db -> Db -> Prop :=
| evolves_refl d : evolves d d
| evolves_step d {A} (sql : Statement A) now rows d' d'' :
    run_statement sql now d = inr (rows, d') ->
    evolves d' d'' ->
    evolves d d''.


(** A stored token row and what it may become: the same row, or the same
    row revoked. *)
Definition ages (r r' : RT.row) : Prop :=
  RT.USER_ID r' = RT.USER_ID r /\
  RT.TOKEN r' = RT.TOKEN r /\
  RT.EXPIRES_AT r' = RT.EXPIRES_AT r /\
  RT.CREATED_AT r' = RT.CREATED_AT r /\
  (RT.IS_REVOKED r = true -> RT.IS_REVOKED r' = true).

(** A token table and a later one: every row still sits where it was,
    aged, and rows may have been added behind. *)
Inductive grows : list RT.row -> list RT.row -> Prop :=
| grows_nil added : grows [] added
| grows_cons r r' l l' : ages r r' -> grows l l' -> grows (r :: l) (r' :: l').

(** The user table only gets longer. *)
Definition extends (l l' : list U.row) : Prop := exists added, l' = l ++ added.


(** The constraints of the logical schema, as a property of the tables. *)
Record db_wf (d : Db) : Prop := mk_db_wf {
  wf_id_unique : NoDup (map U.ID (HMS_USERS d));
  wf_id_assigned : Forall (fun u => U.ID u < AUTO_INCREMENT d) (HMS_USERS d);
  wf_username_unique : NoDup (map U.USERNAME (HMS_USERS d));
  wf_email_unique : NoDup (map U.EMAIL (HMS_USERS d));
  wf_token_unique : NoDup (map RT.TOKEN (HMS_REFRESH_TOKENS d));
  wf_owner : Forall (fun rt => exists u, In u (HMS_USERS d) /\ U.ID u = RT.USER_ID rt)
               (HMS_REFRESH_TOKENS d)
}.


(** The identity the service reports for a user row. *)
Definition identity (u : U.row) : User.t :=
  {| User.id := U.ID u; User.username := U.USERNAME u; User.email := U.EMAIL u |}.

(** The row [loginUser] stores for a session opened at time [now]. *)
Definition session_row (now : Z) (u : U.row) (token : string) : RT.row :=
  {| RT.USER_ID := U.ID u; RT.TOKEN := token;
     RT.EXPIRES_AT := addDays now 7; RT.CREATED_AT := now;
     RT.IS_REVOKED := false |}.


(** The connections obtained and the connections released in a stretch of
    the trace. *)
Fixpoint acquired (t : list Event) : list Conn :=
  match t with
  | [] => []
  | EvAcquire c :: t' => c :: acquired t'
  | _ :: t' => acquired t'
  end.

Fixpoint released (t : list Event) : list Conn :=
  match t with
  | [] => []
  | EvRelease c :: t' => c :: released t'
  | _ :: t' => released t'
  end.

(** Connections are numbered as the pool hands them out. *)
Definition pool_wf (w : World) : Prop :=
  Forall (fun c => (c < next_conn w)%nat) (leased w).

(** A token is usable at [now] when the table holds a row for it that is
    not revoked and expires strictly later. *)
Definition usable (now : Z) (token : string) (d : Db) : Prop :=
  exists rt, In rt (HMS_REFRESH_TOKENS d) /\ RT.TOKEN rt = token /\
             RT.IS_REVOKED rt = false /\ now < RT.EXPIRES_AT rt.

(** The projection of an owner that [checkTokenSql] selects. *)
Definition token_data (u : U.row) : TokenData.row :=
  {| TokenData.USER_ID := U.ID u;
     TokenData.USERNAME := U.USERNAME u;
     TokenData.EMAIL := U.EMAIL u |}.

(** ** A concrete instance

    Stand-ins for bcrypt and the token helpers, and a world to run the
    service in. *)

Definition decimal (z : Z) : string := NilZero.string_of_int (Z.to_int z).

Definition demo : Primitives :=
  {| hash_with_salt := fun salt data rounds =>
       String.append "$2b$" (String.append (decimal (Z.of_nat salt))
         (String.append "$" data));
     compare_hash := fun data encrypted =>
       match index 5 "$" encrypted with
       | Some n => (substring (S n) (String.length encrypted) encrypted =? data)%string
       | None => false
       end;
     sign_access := fun now claims =>
       String.append "at." (String.append (AccessClaims.username claims)
         (String.append "." (decimal now)));
     sign_refresh := fun now claims =>
       String.append "rt." (String.append (decimal (RefreshClaims.userId claims))
         (String.append "." (decimal now)));
     verify_refresh := fun now token =>
       if String.prefix "rt." token
       then Some {| RefreshClaims.userId := 0 |}
       else None |}.

(** A fresh process over an empty database, at time 1000. *)
Definition boot : World :=
  {| db := empty_db; clock := 1000; pool := false; leased := []; next_conn := 0%nat;
     schedule := []; salts := 0%nat; trace := [] |}.

Definition set_clock (t : Z) (w : World) : World :=
  mkWorld (db w) t (pool w) (leased w) (next_conn w) (schedule w) (salts w) (trace w).

(** Two registered users, then a session for the second. *)
Definition bob_row : U.row :=
  {| U.ID := 1; U.USERNAME := "bob"; U.EMAIL := "a@x.com";
     U.PASSWORD_HASH := "$2b$0$pw0"; U.CREATED_AT := 1000; U.UPDATED_AT := 1000 |}.
Definition alice_row : U.row :=
  {| U.ID := 2; U.USERNAME := "alice"; U.EMAIL := "b@x.com";
     U.PASSWORD_HASH := "$2b$1$pw1"; U.CREATED_AT := 1000; U.UPDATED_AT := 1000 |}.
Definition alice_session_row (revoked : bool) : RT.row :=
  {| RT.USER_ID := 2; RT.TOKEN := "rt.2.1000"; RT.EXPIRES_AT := 604801000;
     RT.CREATED_AT := 1000; RT.IS_REVOKED := revoked |}.
Definition w_bob : World := handle demo (Register "bob" "a@x.com" "pw0") boot.
Definition w_two : World := handle demo (Register "alice" "b@x.com" "pw1") w_bob.
Definition alice_session : Session.t :=
  {| Session.user := {| User.id := 2; User.username := "alice"; User.email := "b@x.com" |};
     Session.accessToken := "at.alice.1000";
     Session.refreshToken := "rt.2.1000" |}.
Definition w_session : World := snd (loginUser demo "alice" "pw1" w_two).

(** The world after that session has been logged out. *)
Definition w_closed : World := snd (logoutUser (Some "rt.2.1000") w_session).

(** A fresh process whose third driver call (the statement) will fault. *)
Definition w_faulty : World :=
  {| db := empty_db; clock := 1000; pool := false; leased := []; next_conn := 0%nat;
     schedule := [Succeeds; Succeeds; Faults "ECONNRESET"]; salts := 0%nat; trace := [] |}.

(** The open session after one use of its token. *)
Definition w_refreshed : World :=
  handle demo (Refresh (Some "rt.2.1000")) w_session.

(** Later on, alice logs in again and someone presents the old token. *)
Definition w_later : World :=
  handle demo (Refresh (Some "rt.2.1000"))
    (handle demo (Login "alice" "pw1") (set_clock 5000 w_closed)).

(** ** Further observations *)

(** The row [insertUserSql] adds for a registration in world [w] whose
    password hashes to [passwordHash]. *)
Definition new_user_row (w : World) (username email passwordHash : string) : U.row :=
  {| U.ID := AUTO_INCREMENT (db w); U.USERNAME := username; U.EMAIL := email;
     U.PASSWORD_HASH := passwordHash;
     U.CREATED_AT := clock w; U.UPDATED_AT := clock w |}.

(** The database after that row has been added. *)
Definition with_user (d : Db) (row : U.row) : Db :=
  {| HMS_USERS := HMS_USERS d ++ [row];
     HMS_REFRESH_TOKENS := HMS_REFRESH_TOKENS d;
     AUTO_INCREMENT := AUTO_INCREMENT d + 1 |}.

(** What [getUserById] reports for a user row. *)
Definition profile (u : U.row) : Profile.t :=
  {| Profile.id := U.ID u; Profile.username := U.USERNAME u;
     Profile.email := U.EMAIL u; Profile.createdAt := U.CREATED_AT u;
     Profile.updatedAt := U.UPDATED_AT u |}.

(** Two worlds that differ at most in the salts drawn and in events that
    are neither the obtaining nor the release of a connection. *)
Definition quiet (w w' : World) : Prop :=
  db w' = db w /\ clock w' = clock w /\ pool w' = pool w /\
  leased w' = leased w /\ next_conn w' = next_conn w /\
  schedule w' = schedule w /\
  exists events,
    trace w' = events ++ trace w /\ acquired events = [] /\ released events = [].

(** A stretch of execution that gave back every connection it obtained. *)
Definition balanced (w w' : World) : Prop :=
  pool_wf w ->
  pool_wf w' /\ leased w' = leased w /\
  exists events, trace w' = events ++ trace w /\ acquired events = released events.

(** A stretch of execution that left the clock alone and scheduled no
    fault. *)
Definition steady (w w' : World) : Prop :=
  clock w' = clock w /\ (healthy w -> healthy w').

(** ** More concrete worlds *)

(** The two-user world with a driver that will fault on the sixth call,
    the re-fetch of a registration. *)
Definition w_flaky : World :=
  set_schedule [Succeeds; Succeeds; Succeeds; Succeeds; Succeeds; Faults "ECONNRESET"]
    w_two.

(** A third user, and the world after her registration. *)
Definition carol : Registered.t :=
  {| Registered.id := 3; Registered.username := "carol";
     Registered.email := "c@x.com"; Registered.createdAt := 1000 |}.
Definition w_carol : World := snd (registerUser demo "carol" "c@x.com" "pw3" w_two).

(** A user who takes bob's email as username. *)
Definition w_shadow : World := snd (registerUser demo "a@x.com" "d@x.com" "pw4" w_two).

(** A fresh process whose fourth driver call, a rollback, will fault. *)
Definition w_tx : World :=
  {| db := empty_db; clock := 1000; pool := false; leased := []; next_conn := 0%nat;
     schedule := [Succeeds; Succeeds; Succeeds; Faults "EPIPE"];
     salts := 0%nat; trace := [] |}.

(** A callback that throws. *)
Definition failing_callback (c : Conn) : M World unit :=
  throw (JsError "callback failed").
(** * Proofs *)

(** ** What one query does to the world *)

Ltac unfold_connection :=
  unfold executeQuery, executeTransaction, call, try_catch_finally, try_finally,
    try_catch, if_connection, lift, assign_connection, getConnection,
    initializePool, pool_getConnection, connection_execute,
    connection_beginTransaction, connection_commit, connection_rollback,
    connection_release, console, effect, driver_call, bind, ret, throw,
    try_catch, emit, set_db, set_pool, set_leased, set_next_conn, set_schedule;
  simpl.

Lemma new_event (e : Event) (l events tr : list Event) :
  l = events ++ tr -> e :: l = (e :: events) ++ tr.
Proof. intros ->. reflexivity. Qed.

(** Splits an explicit trace into the events added in front of [tr]. *)
Ltac new_events :=
  repeat apply new_event;
  match goal with |- ?tr = _ ++ ?tr => exact (eq_refl ([] ++ tr)) end.

Lemma executeQuery_run {A} (sql : Statement A) (w : World) :
  clock (snd (executeQuery sql w)) = clock w /\
  salts (snd (executeQuery sql w)) = salts w /\
  hashed (trace (snd (executeQuery sql w))) = hashed (trace w) /\
  ((fst (executeQuery sql w) = statement_result sql w /\
    db (snd (executeQuery sql w)) = statement_db sql w) \/
   (exists code, fst (executeQuery sql w) = Throw (DriverError code)) /\
    db (snd (executeQuery sql w)) = db w).
Proof.
  unfold statement_result, statement_db.
  unfold_connection.
  destruct w as [d ck p l n sc sa tr]; simpl.
  destruct p; simpl.
  - destruct sc as [|[|c1] sc]; simpl.
    + destruct (run_statement sql ck d) as [code|[rows d']]; simpl; auto 10.
    + destruct sc as [|[|c2] sc]; simpl;
        destruct (run_statement sql ck d) as [code|[rows d']]; simpl; eauto 10.
    + eauto 10.
  - destruct sc as [|[|c1] sc]; simpl.
    + destruct (run_statement sql ck d) as [code|[rows d']]; simpl; auto 10.
    + destruct sc as [|[|c2] sc]; simpl.
      * destruct (run_statement sql ck d) as [code|[rows d']]; simpl; auto 10.
      * destruct sc as [|[|c3] sc]; simpl;
          destruct (run_statement sql ck d) as [code|[rows d']]; simpl; eauto 10.
      * eauto 10.
    + eauto 10.
Qed.

Lemma executeQuery_healthy {A} (sql : Statement A) (w : World) :
  healthy w ->
  fst (executeQuery sql w) = statement_result sql w /\
  db (snd (executeQuery sql w)) = statement_db sql w /\
  healthy (snd (executeQuery sql w)).
Proof.
  unfold healthy, statement_result, statement_db.
  destruct w as [d ck p l n sc sa tr]; simpl; intros ->.
  unfold_connection.
  destruct p; simpl;
    destruct (run_statement sql ck d) as [code|[rows d']]; simpl; auto.
Qed.

Lemma executeQuery_Ok {A} (sql : Statement A) (w : World) rows w1 :
  executeQuery sql w = (Ok rows, w1) ->
  run_statement sql (clock w) (db w) = inr (rows, db w1) /\
  clock w1 = clock w /\ salts w1 = salts w /\
  hashed (trace w1) = hashed (trace w).
Proof.
  intros E. pose proof (executeQuery_run sql w) as H. rewrite E in H. simpl in H.
  destruct H as (Hc & Hs & Hh & [[Hr Hd] | [[code Hr] _]]); [|discriminate].
  unfold statement_result, statement_db in *.
  destruct (run_statement sql (clock w) (db w)) as [code|[rows' d']];
    [discriminate|].
  injection Hr as <-. subst d'. auto.
Qed.

Lemma executeQuery_Throw {A} (sql : Statement A) (w : World) e w1 :
  executeQuery sql w = (Throw e, w1) ->
  (exists code, e = DriverError code) /\
  db w1 = db w /\ clock w1 = clock w /\ salts w1 = salts w /\
  hashed (trace w1) = hashed (trace w).
Proof.
  intros E. pose proof (executeQuery_run sql w) as H. rewrite E in H. simpl in H.
  destruct H as (Hc & Hs & Hh & [[Hr Hd] | [[code Hr] Hd]]).
  - unfold statement_result, statement_db in *.
    destruct (run_statement sql (clock w) (db w)) as [code|[rows' d']];
      [|discriminate].
    injection Hr as ->. eauto 6.
  - injection Hr as ->. eauto 6.
Qed.

Lemma executeQuery_healthy_run {A} (sql : Statement A) (w : World) :
  healthy w ->
  exists w1,
    executeQuery sql w = (statement_result sql w, w1) /\
    db w1 = statement_db sql w /\ healthy w1 /\
    clock w1 = clock w /\ salts w1 = salts w /\
    hashed (trace w1) = hashed (trace w).
Proof.
  intros H.
  destruct (executeQuery_healthy sql w H) as (Hr & Hd & Hh).
  destruct (executeQuery_run sql w) as (Hc & Hs & Ht & _).
  destruct (executeQuery sql w) as [r w1]; simpl in *.
  exists w1. subst r. auto 7.
Qed.

(** ** Connections *)

Lemma remove_fresh (c : Conn) (l : list Conn) :
  Forall (fun c' => (c' < c)%nat) l -> remove Nat.eq_dec c (c :: l) = l.
Proof.
  intros H. simpl. destruct (Nat.eq_dec c c) as [_|N]; [|contradiction].
  apply notin_remove. intros Hin. rewrite Forall_forall in H.
  specialize (H c Hin). lia.
Qed.

Lemma executeQuery_balanced {A} (sql : Statement A) (w : World) :
  pool_wf w ->
  leased (snd (executeQuery sql w)) = leased w /\
  exists events,
    trace (snd (executeQuery sql w)) = events ++ trace w /\
    acquired events = released events /\
    (forall c, In c (acquired events) -> hd_error events = Some (EvRelease c)).
Proof.
  unfold pool_wf. destruct w as [d ck p l n sc sa tr]; simpl. intros W.
  pose proof (remove_fresh n l W) as Hrm. simpl in Hrm.
  unfold_connection.
  destruct p; simpl;
    repeat (match goal with
            | |- context [match ?sc with [] => _ | _ => _ end] =>
                destruct sc as [|[|?] ?]; simpl
            end);
    destruct (run_statement sql ck d) as [?|[? ?]]; simpl;
    rewrite ?Hrm; (split; [reflexivity|]);
    eexists; (split; [new_events|]); simpl;
    (split; [reflexivity|]); intros c Hc;
    repeat (destruct Hc as [<-|Hc]; [reflexivity|]); try contradiction.
Qed.

Lemma getConnection_Ok w c w0 :
  getConnection w = (Ok c, w0) ->
  c = next_conn w /\ leased w0 = c :: leased w /\ next_conn w0 = S c.
Proof.
  destruct w as [d ck p l n sc sa tr].
  unfold_connection.
  destruct p; simpl;
    repeat (match goal with
            | |- context [match ?sc with [] => _ | _ => _ end] =>
                destruct sc as [|[|?] ?]; simpl
            end);
    intros [= <- <-]; simpl; auto.
Qed.

Lemma getConnection_Throw w e w0 :
  getConnection w = (Throw e, w0) -> leased w0 = leased w.
Proof.
  destruct w as [d ck p l n sc sa tr].
  unfold_connection.
  destruct p; simpl;
    repeat (match goal with
            | |- context [match ?sc with [] => _ | _ => _ end] =>
                destruct sc as [|[|?] ?]; simpl
            end);
    intros [= <- <-]; simpl; auto.
Qed.

Lemma beginTransaction_frame c w :
  leased (snd (connection_beginTransaction c w)) = leased w /\
  trace (snd (connection_beginTransaction c w)) = EvBegin c :: trace w.
Proof.
  destruct w as [d ck p l n sc sa tr].
  unfold_connection. destruct sc as [|[|?] ?]; simpl; auto.
Qed.

Ltac unfold_transaction :=
  unfold executeTransaction, call, try_catch_finally, try_finally, try_catch,
    if_connection, lift, assign_connection, bind, ret, throw; simpl.

Ltac unfold_calls :=
  unfold connection_commit, connection_rollback, connection_release,
    effect, driver_call, bind, emit, set_leased, set_schedule; simpl.

Lemma executeTransaction_no_connection {B} (callback : Conn -> M World B) w e w0 :
  getConnection w = (Throw e, w0) ->
  executeTransaction callback w = (Throw e, w0).
Proof.
  intros Hget. unfold_transaction. rewrite Hget. simpl. reflexivity.
Qed.

Lemma executeTransaction_begin_fails {B} (callback : Conn -> M World B) w c w0 e w1 :
  getConnection w = (Ok c, w0) ->
  connection_beginTransaction c w0 = (Throw e, w1) ->
  exists e' w',
    executeTransaction callback w = (Throw e', w') /\
    trace w' = EvRelease c :: EvRollback c :: trace w1 /\
    leased w' = remove Nat.eq_dec c (leased w1).
Proof.
  intros Hget Hbegin. unfold_transaction. rewrite Hget. simpl.
  rewrite Hbegin. simpl.
  destruct w1 as [d ck p l n sc sa tr]. unfold_calls.
  destruct sc as [|[|?] ?]; simpl; eauto.
Qed.

Lemma executeTransaction_callback_fails {B} (callback : Conn -> M World B)
      w c w0 w1 e wc :
  getConnection w = (Ok c, w0) ->
  connection_beginTransaction c w0 = (Ok tt, w1) ->
  callback c w1 = (Throw e, wc) ->
  exists e' w',
    executeTransaction callback w = (Throw e', w') /\
    trace w' = EvRelease c :: EvRollback c :: trace wc /\
    leased w' = remove Nat.eq_dec c (leased wc) /\
    (healthy wc -> e' = e).
Proof.
  intros Hget Hbegin Hcb. unfold_transaction. rewrite Hget. simpl.
  rewrite Hbegin. simpl. rewrite Hcb. simpl.
  destruct wc as [d ck p l n sc sa tr]. unfold healthy. unfold_calls.
  destruct sc as [|[|?] ?]; simpl; eexists; eexists;
    (split; [reflexivity|]); (split; [reflexivity|]);
    (split; [reflexivity|]); intros; congruence.
Qed.

Lemma executeTransaction_callback_returns {B} (callback : Conn -> M World B)
      w c w0 w1 b wc :
  getConnection w = (Ok c, w0) ->
  connection_beginTransaction c w0 = (Ok tt, w1) ->
  callback c w1 = (Ok b, wc) ->
  exists r w',
    executeTransaction callback w = (r, w') /\
    leased w' = remove Nat.eq_dec c (leased wc) /\
    ((r = Ok tt /\ trace w' = EvRelease c :: EvCommit c :: trace wc) \/
     ((exists e, r = Throw e) /\
      trace w' = EvRelease c :: EvRollback c :: EvCommit c :: trace wc)) /\
    (healthy wc -> r = Ok tt).
Proof.
  intros Hget Hbegin Hcb. unfold_transaction. rewrite Hget. simpl.
  rewrite Hbegin. simpl. rewrite Hcb. simpl.
  destruct wc as [d ck p l n sc sa tr]. unfold healthy. unfold_calls.
  destruct sc as [|[|?] ?]; simpl;
    try (destruct sc as [|[|?] ?]; simpl);
    eexists; eexists;
    (split; [reflexivity|]); (split; [reflexivity|]);
    (split; [|intros; try reflexivity; discriminate]); eauto.
Qed.

Lemma executeTransaction_releases {B} (callback : Conn -> M World B) w c w0 :
  getConnection w = (Ok c, w0) ->
  hd_error (trace (snd (executeTransaction callback w))) = Some (EvRelease c) /\
  ~ In c (leased (snd (executeTransaction callback w))) /\
  ((forall c' w1, leased (snd (callback c' w1)) = leased w1) ->
   leased (snd (executeTransaction callback w)) =
     remove Nat.eq_dec c (leased w0)).
Proof.
  intros Hget.
  destruct (beginTransaction_frame c w0) as [Hl1 _].
  destruct (connection_beginTransaction c w0) as [[[]|e] w1] eqn:Hbegin; simpl in Hl1.
  - pose proof (fun Hf : forall c' w1, leased (snd (callback c' w1)) = leased w1 =>
                  Hf c w1) as Hlc.
    destruct (callback c w1) as [[b|e] wc] eqn:Hcb; simpl in Hlc.
    + destruct (executeTransaction_callback_returns callback _ _ _ _ _ _ Hget Hbegin Hcb)
        as (r & w' & -> & Hl & Ht & _). simpl.
      split; [destruct Ht as [[_ ->]|[_ ->]]; reflexivity|].
      split; [rewrite Hl; apply remove_In|].
      intros Hf. rewrite Hl, (Hlc Hf), Hl1. reflexivity.
    + destruct (executeTransaction_callback_fails callback _ _ _ _ _ _ Hget Hbegin Hcb)
        as (e' & w' & -> & Ht & Hl & _). simpl.
      split; [rewrite Ht; reflexivity|].
      split; [rewrite Hl; apply remove_In|].
      intros Hf. rewrite Hl, (Hlc Hf), Hl1. reflexivity.
  - destruct (executeTransaction_begin_fails callback _ _ _ _ _ Hget Hbegin)
      as (e' & w' & -> & Ht & Hl). simpl.
    split; [rewrite Ht; reflexivity|].
    split; [rewrite Hl; apply remove_In|].
    intros _. rewrite Hl, Hl1. reflexivity.
Qed.

(** C9. [executeQuery] gives back the connection it obtained on every
    path, whether the statement returns rows or the driver throws: the
    connections leased are the same after as before, and every connection
    obtained during the call is released as the call's last act.
    [executeTransaction] obtains a connection or fails without holding
    one; once it holds one, it calls commit right after a callback that
    returned, calls rollback and no commit after a callback that threw
    (and rollback also when begin or commit themselves fault), throws
    whenever it rolled back, and on each of these paths releases the
    connection as its last act. *)
Theorem connections_released_on_every_path :
  forall {A B} (sql : Statement A) (callback : Conn -> M World B) (w : World),
    pool_wf w ->
    (leased (snd (executeQuery sql w)) = leased w /\
     exists events,
       trace (snd (executeQuery sql w)) = events ++ trace w /\
       acquired events = released events /\
       (forall c, In c (acquired events) -> hd_error events = Some (EvRelease c))) /\
    (forall e w0,
       getConnection w = (Throw e, w0) ->
       executeTransaction callback w = (Throw e, w0) /\ leased w0 = leased w) /\
    (forall c w0,
       getConnection w = (Ok c, w0) ->
       hd_error (trace (snd (executeTransaction callback w))) = Some (EvRelease c) /\
       ~ In c (leased (snd (executeTransaction callback w))) /\
       (forall e w1,
          connection_beginTransaction c w0 = (Throw e, w1) ->
          (exists e', fst (executeTransaction callback w) = Throw e') /\
          trace (snd (executeTransaction callback w)) =
            EvRelease c :: EvRollback c :: trace w1) /\
       (forall w1 e wc,
          connection_beginTransaction c w0 = (Ok tt, w1) ->
          callback c w1 = (Throw e, wc) ->
          (exists e', fst (executeTransaction callback w) = Throw e' /\
                      (healthy wc -> e' = e)) /\
          trace (snd (executeTransaction callback w)) =
            EvRelease c :: EvRollback c :: trace wc) /\
       (forall w1 b wc,
          connection_beginTransaction c w0 = (Ok tt, w1) ->
          callback c w1 = (Ok b, wc) ->
          ((fst (executeTransaction callback w) = Ok tt /\
            trace (snd (executeTransaction callback w)) =
              EvRelease c :: EvCommit c :: trace wc) \/
           ((exists e, fst (executeTransaction callback w) = Throw e) /\
            trace (snd (executeTransaction callback w)) =
              EvRelease c :: EvRollback c :: EvCommit c :: trace wc)) /\
          (healthy wc -> fst (executeTransaction callback w) = Ok tt))) /\
    ((forall c w1, leased (snd (callback c w1)) = leased w1) ->
     leased (snd (executeTransaction callback w)) = leased w).
Proof.
  intros A B sql callback w W.
  split; [apply executeQuery_balanced; exact W|].
  split.
  { intros e w0 Hget. split.
    - apply executeTransaction_no_connection. exact Hget.
    - eapply getConnection_Throw. exact Hget. }
  split.
  { intros c w0 Hget.
    destruct (executeTransaction_releases callback w c w0 Hget) as (Hhd & Hnot & _).
    split; [exact Hhd|]. split; [exact Hnot|].
    split; [|split].
    - intros e w1 Hbegin.
      destruct (executeTransaction_begin_fails callback _ _ _ _ _ Hget Hbegin)
        as (e' & w' & -> & Ht & _). simpl. eauto.
    - intros w1 e wc Hbegin Hcb.
      destruct (executeTransaction_callback_fails callback _ _ _ _ _ _ Hget Hbegin Hcb)
        as (e' & w' & -> & Ht & _ & He). simpl. eauto.
    - intros w1 b wc Hbegin Hcb.
      destruct (executeTransaction_callback_returns callback _ _ _ _ _ _ Hget Hbegin Hcb)
        as (r & w' & -> & _ & Ht & Hr). simpl. auto. }
  intros Hframe.
  destruct (getConnection w) as [[c|e] w0] eqn:Hget.
  - destruct (executeTransaction_releases callback w c w0 Hget) as (_ & _ & Hl).
    rewrite (Hl Hframe).
    destruct (getConnection_Ok _ _ _ Hget) as (-> & -> & _).
    apply remove_fresh. exact W.
  - rewrite (executeTransaction_no_connection callback _ _ _ Hget). simpl.
    eapply getConnection_Throw. exact Hget.
Qed.

(** ** How the database evolves *)

Lemma evolves_trans d1 d2 d3 : evolves d1 d2 -> evolves d2 d3 -> evolves d1 d3.
Proof.
  induction 1; intros; auto.
  eapply evolves_step; eauto.
Qed.

Lemma executeQuery_evolves {A} (sql : Statement A) (w : World) :
  evolves (db w) (db (snd (executeQuery sql w))).
Proof.
  destruct (executeQuery_run sql w) as (_ & _ & _ & [[_ Hd] | [_ Hd]]); rewrite Hd.
  - unfold statement_db.
    destruct (run_statement sql (clock w) (db w)) as [code|[rows d']] eqn:E.
    + constructor.
    + eapply evolves_step; [exact E | constructor].
  - constructor.
Qed.

(** ** Computations that respect a preorder on worlds *)

Section Respects.

Variable R : World -> World -> Prop.
Hypothesis R_refl : forall w, R w w.
Hypothesis R_trans : forall w1 w2 w3, R w1 w2 -> R w2 w3 -> R w1 w3.

Lemma respects_ret {A} (a : A) : respects R (ret a).
Proof. intros w; apply R_refl. Qed.

Lemma respects_throw {A} (e : Error) : respects R (@throw World A e).
Proof. intros w; apply R_refl. Qed.

Lemma respects_bind {A B} (m : M World A) (k : A -> M World B) :
  respects R m -> (forall a, respects R (k a)) -> respects R (bind m k).
Proof.
  intros Hm Hk w. unfold bind.
  specialize (Hm w). destruct (m w) as [[a|e] w1]; simpl in *; auto.
  eapply R_trans; [exact Hm | apply Hk].
Qed.

Lemma respects_try_catch {A} (m : M World A) (h : Error -> M World A) :
  respects R m -> (forall e, respects R (h e)) -> respects R (try_catch m h).
Proof.
  intros Hm Hh w. unfold try_catch.
  specialize (Hm w). destruct (m w) as [[a|e] w1]; simpl in *; auto.
  eapply R_trans; [exact Hm | apply Hh].
Qed.

Lemma respects_if {A} (b : bool) (m1 m2 : M World A) :
  respects R m1 -> respects R m2 -> respects R (if b then m1 else m2).
Proof. destruct b; auto. Qed.

End Respects.

Section Machine.

Context (K : Primitives).

(** Every piece the service is made of respects a preorder that
    [executeQuery] respects and that looks at nothing but the database. *)
Section Service_respects.

Variable R : World -> World -> Prop.
Hypothesis R_refl : forall w, R w w.
Hypothesis R_trans : forall w1 w2 w3, R w1 w2 -> R w2 w3 -> R w1 w3.
Hypothesis R_db : forall w w', db w' = db w -> R w w'.
Hypothesis R_query : forall A (sql : Statement A), respects R (executeQuery sql).

Ltac respects_step :=
  first
    [ apply respects_bind; try assumption; intros
    | apply respects_try_catch; try assumption; intros
    | apply respects_ret; assumption
    | apply respects_throw; assumption
    | apply R_query
    | match goal with
      | |- respects _ (if ?b then _ else _) => destruct b
      | |- respects _ (match ?x with _ => _ end) => destruct x
      | |- respects _ (let _ := _ in _) => cbv zeta
      end ].

Lemma bcrypt_hash_respects data rounds : respects R (bcrypt_hash K data rounds).
Proof. intros w. apply R_db. reflexivity. Qed.

Lemma bcrypt_compare_respects data encrypted :
  respects R (bcrypt_compare K data encrypted).
Proof. intros w. apply R_db. reflexivity. Qed.

Lemma generateAccessToken_respects payload :
  respects R (generateAccessToken K payload).
Proof. intros w. apply R_db. reflexivity. Qed.

Lemma generateRefreshToken_respects payload :
  respects R (generateRefreshToken K payload).
Proof. intros w. apply R_db. reflexivity. Qed.

Lemma new_Date_respects : respects R new_Date.
Proof. intros w. apply R_db. reflexivity. Qed.

Lemma verifyRefreshToken_respects token : respects R (verifyRefreshToken K token).
Proof.
  intros w. apply R_db. unfold verifyRefreshToken.
  destruct (verify_refresh K (clock w) token); reflexivity.
Qed.

Ltac respects_all :=
  repeat first
    [ apply bcrypt_hash_respects
    | apply bcrypt_compare_respects
    | apply generateAccessToken_respects
    | apply generateRefreshToken_respects
    | apply new_Date_respects
    | apply verifyRefreshToken_respects
    | respects_step ].

Lemma registerUser_respects u e p : respects R (registerUser K u e p).
Proof. unfold registerUser. respects_all. Qed.

Lemma loginUser_respects u p : respects R (loginUser K u p).
Proof. unfold loginUser. respects_all. Qed.

Lemma refreshAccessToken_respects t : respects R (refreshAccessToken K t).
Proof. unfold refreshAccessToken. respects_all. Qed.

Lemma logoutUser_respects t : respects R (logoutUser t).
Proof. unfold logoutUser. respects_all. Qed.

Lemma getUserById_respects i : respects R (getUserById i).
Proof. unfold getUserById. respects_all. Qed.

Lemma handle_respects q w : R w (handle K q w).
Proof.
  destruct q; simpl.
  - apply registerUser_respects.
  - apply loginUser_respects.
  - apply refreshAccessToken_respects.
  - apply logoutUser_respects.
  - apply getUserById_respects.
Qed.

Lemma steps_respects w w' : steps K w w' -> R w w'.
Proof.
  induction 1.
  - apply R_refl.
  - apply R_trans with (handle K q w); [apply handle_respects | assumption].
  - apply R_trans with w; [apply R_db; assumption | assumption].
Qed.

End Service_respects.

Lemma steps_evolves w w' : steps K w w' -> evolves (db w) (db w').
Proof.
  apply (steps_respects (fun w w' => evolves (db w) (db w'))).
  - intros; constructor.
  - intros; eapply evolves_trans; eauto.
  - intros ? ? ->; constructor.
  - intros A sql w0. apply executeQuery_evolves.
Qed.

End Machine.

(** ** Invariants of the schema *)

Lemma ages_refl r : ages r r.
Proof. unfold ages; auto. Qed.

Lemma ages_trans r1 r2 r3 : ages r1 r2 -> ages r2 r3 -> ages r1 r3.
Proof. unfold ages; intuition congruence. Qed.

Lemma ages_revoke token r : ages r (revoke_row token r).
Proof.
  unfold ages, revoke_row.
  destruct ((RT.TOKEN r =? token)%string && negb (RT.IS_REVOKED r)); simpl; auto.
Qed.

Lemma grows_refl l : grows l l.
Proof. induction l; constructor; auto using ages_refl. Qed.

Lemma grows_trans l1 l2 l3 : grows l1 l2 -> grows l2 l3 -> grows l1 l3.
Proof.
  intros H; revert l3; induction H; intros l3 H3.
  - constructor.
  - inversion H3; subst. constructor; eauto using ages_trans.
Qed.

Lemma grows_app l added : grows l (l ++ added).
Proof. induction l; simpl; constructor; auto using ages_refl. Qed.

Lemma grows_map_revoke token l : grows l (map (revoke_row token) l).
Proof. induction l; simpl; constructor; auto using ages_revoke. Qed.

Lemma grows_nth l l' :
  grows l l' ->
  forall i r, nth_error l i = Some r ->
  exists r', nth_error l' i = Some r' /\ ages r r'.
Proof.
  induction 1; intros i r0 Hi.
  - destruct i; discriminate.
  - destruct i; simpl in *.
    + injection Hi as <-. eauto.
    + eauto.
Qed.

Lemma extends_refl l : extends l l.
Proof. exists []. symmetry; apply app_nil_r. Qed.

Lemma extends_trans l1 l2 l3 : extends l1 l2 -> extends l2 l3 -> extends l1 l3.
Proof.
  intros [a ->] [b ->]. exists (a ++ b). symmetry; apply app_assoc.
Qed.

Lemma extends_In l l' u : extends l l' -> In u l -> In u l'.
Proof. intros [a ->] H. apply in_or_app; auto. Qed.

Lemma statement_grows {A} (sql : Statement A) now d rows d' :
  run_statement sql now d = inr (rows, d') ->
  grows (HMS_REFRESH_TOKENS d) (HMS_REFRESH_TOKENS d') /\
  extends (HMS_USERS d) (HMS_USERS d').
Proof.
  destruct sql; simpl; intros H;
    try (injection H as _ <-; split; [apply grows_refl | apply extends_refl]).
  - destruct (user_insert_rejected d username email); [discriminate|].
    injection H as _ <-; simpl. split; [apply grows_refl | eexists; reflexivity].
  - destruct (token_insert_rejected d userId token); [discriminate|].
    injection H as _ <-; simpl. split; [apply grows_app | apply extends_refl].
  - injection H as _ <-; simpl. split; [apply grows_map_revoke | apply extends_refl].
Qed.

Lemma evolves_grows d d' :
  evolves d d' ->
  grows (HMS_REFRESH_TOKENS d) (HMS_REFRESH_TOKENS d') /\
  extends (HMS_USERS d) (HMS_USERS d').
Proof.
  induction 1.
  - split; [apply grows_refl | apply extends_refl].
  - destruct (statement_grows sql now d rows d' H) as [G E].
    destruct IHevolves as [G' E'].
    split; [eapply grows_trans | eapply extends_trans]; eauto.
Qed.

Lemma NoDup_map_snoc {A B} (f : A -> B) (l : list A) (x : A) :
  NoDup (map f l) ->
  (forall y, In y l -> f y <> f x) ->
  NoDup (map f (l ++ [x])).
Proof.
  induction l as [|a l IH]; simpl; intros Hnd Hx.
  - constructor; [intros [] | constructor].
  - inversion Hnd as [|? ? Hnotin Hnd']; subst.
    constructor.
    + rewrite map_app, in_app_iff; simpl. intros [Hin | [Heq | []]].
      * contradiction.
      * apply (Hx a); auto.
    + apply IH; auto.
Qed.

Lemma existsb_false {A} (p : A -> bool) (l : list A) :
  existsb p l = false -> forall x, In x l -> p x = false.
Proof.
  intros H x Hin. destruct (p x) eqn:E; auto.
  assert (existsb p l = true) by (apply existsb_exists; eauto).
  congruence.
Qed.

Lemma map_revoke_TOKEN token l :
  map RT.TOKEN (map (revoke_row token) l) = map RT.TOKEN l.
Proof.
  rewrite map_map. apply map_ext. intros r. unfold revoke_row.
  destruct ((RT.TOKEN r =? token)%string && negb (RT.IS_REVOKED r)); reflexivity.
Qed.

Lemma empty_db_wf : db_wf empty_db.
Proof. constructor; simpl; constructor. Qed.

Lemma statement_wf {A} (sql : Statement A) now d rows d' :
  run_statement sql now d = inr (rows, d') -> db_wf d -> db_wf d'.
Proof.
  destruct sql; simpl; intros H W; try (injection H as _ <-; exact W).
  - destruct (user_insert_rejected d username email) eqn:E; [discriminate|].
    injection H as _ <-. destruct W.
    pose proof (existsb_false _ _ E) as Hno.
    constructor; simpl; auto.
    + apply NoDup_map_snoc; auto. simpl. intros y Hy.
      rewrite Forall_forall in wf_id_assigned0.
      specialize (wf_id_assigned0 y Hy). lia.
    + apply Forall_app; split.
      * eapply Forall_impl; [|eassumption]. simpl; intros; lia.
      * constructor; [simpl; lia | constructor].
    + apply NoDup_map_snoc; auto. simpl. intros y Hy Heq.
      specialize (Hno y Hy). unfold matches_user in Hno.
      apply orb_false_elim in Hno as [Hu _].
      apply String.eqb_neq in Hu. contradiction.
    + apply NoDup_map_snoc; auto. simpl. intros y Hy Heq.
      specialize (Hno y Hy). unfold matches_user in Hno.
      apply orb_false_elim in Hno as [_ He].
      apply String.eqb_neq in He. contradiction.
    + eapply Forall_impl; [|eassumption]. simpl.
      intros rt (u & Hu & Hid). exists u. split; auto. apply in_or_app; auto.
  - destruct (token_insert_rejected d userId token) eqn:E; [discriminate|].
    injection H as _ <-. destruct W.
    unfold token_insert_rejected in E. apply orb_false_elim in E as [Et Eu].
    pose proof (existsb_false _ _ Et) as Hno.
    constructor; simpl; auto.
    + apply NoDup_map_snoc; auto. simpl. intros y Hy Heq.
      specialize (Hno y Hy). simpl in Hno.
      apply String.eqb_neq in Hno. contradiction.
    + apply Forall_app; split; auto.
      constructor; [|constructor]. simpl.
      apply negb_false_iff in Eu. apply existsb_exists in Eu as (u & Hu & Hid).
      exists u. split; auto. apply Z.eqb_eq in Hid. auto.
  - injection H as _ <-. destruct W.
    constructor; simpl; auto.
    + rewrite map_revoke_TOKEN. assumption.
    + apply Forall_map. eapply Forall_impl; [|eassumption]. simpl.
      intros rt (u & Hu & Hid). exists u. split; auto.
      rewrite Hid. symmetry. apply (ages_revoke token rt).
Qed.

Lemma evolves_wf d d' : evolves d d' -> db_wf d -> db_wf d'.
Proof.
  induction 1; intros W; auto.
  apply IHevolves. eapply statement_wf; eauto.
Qed.

(** ** Stepping through a sequence *)

Lemma bind_Throw {S A B} (m : M S A) (k : A -> M S B) s e s' :
  bind m k s = (Throw e, s') ->
  m s = (Throw e, s') \/ exists a s1, m s = (Ok a, s1) /\ k a s1 = (Throw e, s').
Proof.
  unfold bind. destruct (m s) as [[a|e0] s1]; intros H; [right; eauto | left; injection H as -> ->; reflexivity].
Qed.

Lemma bind_Ok {S A B} (m : M S A) (k : A -> M S B) s b s' :
  bind m k s = (Ok b, s') ->
  exists a s1, m s = (Ok a, s1) /\ k a s1 = (Ok b, s').
Proof.
  unfold bind. destruct (m s) as [[a|e0] s1]; [eauto | discriminate].
Qed.

(** ** Lists: first matches and unique keys *)

Lemma find_filter_head {A} (p : A -> bool) (l : list A) x rest :
  filter p l = x :: rest -> find p l = Some x.
Proof.
  induction l as [|a l IH]; simpl; [discriminate|].
  destruct (p a); [congruence | assumption].
Qed.

Lemma filter_head_find {A} (p : A -> bool) (l : list A) x :
  find p l = Some x -> exists rest, filter p l = x :: rest.
Proof.
  induction l as [|a l IH]; simpl; [discriminate|].
  destruct (p a); [intros [= ->]; eauto | assumption].
Qed.

Lemma find_none_filter {A} (p : A -> bool) (l : list A) :
  find p l = None -> filter p l = [].
Proof.
  induction l as [|a l IH]; simpl; auto.
  destruct (p a); [discriminate | assumption].
Qed.

Lemma filter_nil {A} (p : A -> bool) (l : list A) :
  (forall y, In y l -> p y = false) -> filter p l = [].
Proof.
  induction l as [|a l IH]; simpl; intros H; auto.
  rewrite (H a) by auto. apply IH. auto.
Qed.

Lemma NoDup_map_inj {A B} (f : A -> B) (l : list A) x y :
  NoDup (map f l) -> In x l -> In y l -> f x = f y -> x = y.
Proof.
  induction l as [|a l IH]; simpl; intros Hnd Hx Hy Hf; [contradiction|].
  inversion Hnd as [|? ? Hnotin Hnd']; subst.
  destruct Hx as [->|Hx], Hy as [->|Hy]; auto.
  - exfalso. apply Hnotin. rewrite Hf. apply in_map. assumption.
  - exfalso. apply Hnotin. rewrite <- Hf. apply in_map. assumption.
Qed.

Lemma filter_unique {A B} (f : A -> B) (p : A -> bool) (l : list A) x :
  NoDup (map f l) -> In x l -> p x = true ->
  (forall y, In y l -> p y = true -> f y = f x) ->
  filter p l = [x].
Proof.
  intros Hnd Hx Hp Hall.
  assert (Hsame : forall y, In y l -> p y = true -> y = x).
  { intros y Hy Hpy. apply (NoDup_map_inj f l); auto. }
  clear Hall. induction l as [|a l IH]; simpl in *; [contradiction|].
  inversion Hnd as [|? ? Hnotin Hnd']; subst.
  destruct (p a) eqn:Ea.
  - assert (a = x) by auto. subst a. f_equal.
    apply filter_nil. intros y Hy. destruct (p y) eqn:Ey; auto.
    assert (y = x) by auto. subst y.
    exfalso. apply Hnotin. apply in_map. assumption.
  - destruct Hx as [->|Hx]; [congruence|]. apply IH; auto.
Qed.

(** ** The lookup of a refresh token *)

Lemma active_spec now token rt :
  active now token rt = true <->
  RT.TOKEN rt = token /\ RT.IS_REVOKED rt = false /\ now < RT.EXPIRES_AT rt.
Proof.
  unfold active. rewrite !andb_true_iff, String.eqb_eq, negb_true_iff, Z.ltb_lt.
  tauto.
Qed.

Lemma findActive_In now token d td :
  In td (findActive now token d) ->
  exists rt u,
    In rt (HMS_REFRESH_TOKENS d) /\ active now token rt = true /\
    In u (HMS_USERS d) /\ U.ID u = RT.USER_ID rt /\ td = token_data u.
Proof.
  unfold findActive. rewrite in_flat_map. intros (rt & Hrt & Htd).
  apply filter_In in Hrt as [Hrt Hact].
  unfold join_user in Htd. apply in_map_iff in Htd as (u & <- & Hu).
  apply filter_In in Hu as [Hu Hid]. apply Z.eqb_eq in Hid.
  exists rt, u. auto 6.
Qed.

Lemma findActive_none now token d :
  (forall rt, In rt (HMS_REFRESH_TOKENS d) -> active now token rt = false) ->
  findActive now token d = [].
Proof.
  intros H. unfold findActive. rewrite (filter_nil _ _ H). reflexivity.
Qed.

Lemma findActive_unique now token d rt u :
  db_wf d ->
  In rt (HMS_REFRESH_TOKENS d) -> active now token rt = true ->
  In u (HMS_USERS d) -> U.ID u = RT.USER_ID rt ->
  findActive now token d = [token_data u].
Proof.
  intros W Hrt Hact Hu Hid. unfold findActive.
  rewrite (filter_unique RT.TOKEN (active now token) _ rt); auto.
  - simpl. rewrite app_nil_r. unfold join_user.
    rewrite (filter_unique U.ID (fun u0 => RT.USER_ID rt =? U.ID u0) _ u); auto.
    + apply (wf_id_unique _ W).
    + apply Z.eqb_eq. auto.
    + intros y _ Hy. apply Z.eqb_eq in Hy. congruence.
  - apply (wf_token_unique _ W).
  - intros y _ Hy. apply active_spec in Hy as [Hy _].
    apply active_spec in Hact as [Hact _]. congruence.
Qed.

(** ** The service, request by request *)

Section Service.

Context (K : Primitives).

Lemma loginUser_Ok username password w s w1 :
  loginUser K username password w = (Ok s, w1) ->
  exists user rest,
    filter (matches_user username username) (HMS_USERS (db w)) = user :: rest /\
    compare_hash K password (U.PASSWORD_HASH user) = true /\
    token_insert_rejected (db w) (U.ID user) (Session.refreshToken s) = false /\
    HMS_REFRESH_TOKENS (db w1) =
      HMS_REFRESH_TOKENS (db w) ++ [session_row (clock w) user (Session.refreshToken s)] /\
    HMS_USERS (db w1) = HMS_USERS (db w) /\
    clock w1 = clock w /\
    s = {| Session.user := identity user;
           Session.accessToken :=
             sign_access K (clock w)
               {| AccessClaims.userId := U.ID user;
                  AccessClaims.username := U.USERNAME user;
                  AccessClaims.email := U.EMAIL user |};
           Session.refreshToken :=
             sign_refresh K (clock w) {| RefreshClaims.userId := U.ID user |} |}.
Proof.
  unfold loginUser, bind. intros H.
  destruct (executeQuery (loginGetUserSql username) w) as [[rows|e] w2] eqn:E1;
    [|discriminate].
  apply executeQuery_Ok in E1. destruct E1 as (E1 & Hc & _). simpl in E1.
  injection E1 as <- Hd.
  destruct (filter (matches_user username username) (HMS_USERS (db w)))
    as [|user rest] eqn:Ef; [discriminate|].
  unfold bcrypt_compare, generateAccessToken, generateRefreshToken, new_Date in H.
  simpl in H.
  destruct (compare_hash K password (U.PASSWORD_HASH user)) eqn:Ecmp;
    simpl in H; [|discriminate].
  match type of H with
  | context [executeQuery ?sql ?w'] =>
      destruct (executeQuery sql w') as [[[]|e] w3] eqn:E2; [|discriminate]
  end.
  unfold ret in H. injection H as <- <-.
  apply executeQuery_Ok in E2. destruct E2 as (E2 & Hc3 & _). simpl in *.
  rewrite <- Hd, Hc in *.
  destruct (token_insert_rejected (db w) (U.ID user)
              (sign_refresh K (clock w) {| RefreshClaims.userId := U.ID user |}))
    eqn:Erej; [discriminate|].
  injection E2 as E2.
  exists user, rest. rewrite <- E2. simpl.
  repeat split; auto.
Qed.

(** C7. A successful login stores exactly one new refresh-token row, behind
    the rows already there: not revoked, owned by the authenticated user,
    holding the returned refresh token and expiring seven days after now.
    The access token is signed over (userId, username, email), the refresh
    token over (userId), and the call returns the user with both tokens. *)
Theorem login_stores_one_session :
  forall username password w s w1,
    loginUser K username password w = (Ok s, w1) ->
    exists user,
      find (matches_user username username) (HMS_USERS (db w)) = Some user /\
      compare_hash K password (U.PASSWORD_HASH user) = true /\
      HMS_REFRESH_TOKENS (db w1) =
        HMS_REFRESH_TOKENS (db w) ++
          [ {| RT.USER_ID := U.ID user;
               RT.TOKEN := Session.refreshToken s;
               RT.EXPIRES_AT := clock w + 7 * 86400000;
               RT.CREATED_AT := clock w;
               RT.IS_REVOKED := false |} ] /\
      HMS_USERS (db w1) = HMS_USERS (db w) /\
      Session.accessToken s =
        sign_access K (clock w)
          {| AccessClaims.userId := U.ID user;
             AccessClaims.username := U.USERNAME user;
             AccessClaims.email := U.EMAIL user |} /\
      Session.refreshToken s =
        sign_refresh K (clock w) {| RefreshClaims.userId := U.ID user |} /\
      Session.user s =
        {| User.id := U.ID user;
           User.username := U.USERNAME user;
           User.email := U.EMAIL user |}.
Proof.
  intros username password w s w1 H.
  destruct (loginUser_Ok _ _ _ _ _ H)
    as (user & rest & Hf & Hcmp & _ & Htok & Husers & _ & Hs).
  exists user. repeat split; auto.
  - apply find_filter_head with rest. exact Hf.
  - rewrite Hs; reflexivity.
  - rewrite Hs; reflexivity.
  - rewrite Hs; reflexivity.
Qed.

Lemma loginUser_healthy username password w :
  healthy w ->
  forall rows, filter (matches_user username username) (HMS_USERS (db w)) = rows ->
  match rows with
  | [] => fst (loginUser K username password w) = Throw InvalidCredentials
  | user :: _ =>
      compare_hash K password (U.PASSWORD_HASH user) = false ->
      fst (loginUser K username password w) = Throw InvalidCredentials
  end.
Proof.
  intros H rows Hrows. unfold loginUser, bind.
  destruct (executeQuery_healthy_run (loginGetUserSql username) w H)
    as (w1 & E & _). rewrite E.
  unfold statement_result; simpl. rewrite Hrows.
  destruct rows as [|user rest]; [reflexivity|].
  intros Hcmp. unfold bcrypt_compare; simpl. rewrite Hcmp. reflexivity.
Qed.

(** C3. Login fails with the one error InvalidCredentials both when no user
    row carries the identifier as username or as email, and when the row
    found does not verify the password. *)
Theorem login_failures_alike :
  forall username password w,
    healthy w ->
    ((forall r, In r (HMS_USERS (db w)) ->
                U.USERNAME r <> username /\ U.EMAIL r <> username) ->
     fst (loginUser K username password w) = Throw InvalidCredentials) /\
    (forall user,
       find (matches_user username username) (HMS_USERS (db w)) = Some user ->
       compare_hash K password (U.PASSWORD_HASH user) = false ->
       fst (loginUser K username password w) = Throw InvalidCredentials).
Proof.
  intros username password w H. split.
  - intros Hnone.
    apply (loginUser_healthy username password w H [] ).
    apply find_none_filter.
    destruct (find (matches_user username username) (HMS_USERS (db w)))
      as [r|] eqn:Ef; [|reflexivity].
    apply find_some in Ef as [Hin Hm].
    destruct (Hnone r Hin) as [Hu He].
    unfold matches_user in Hm. apply orb_true_iff in Hm as [Hm|Hm];
      apply String.eqb_eq in Hm; contradiction.
  - intros user Hf Hcmp.
    destruct (filter_head_find _ _ _ Hf) as [rest Hrest].
    exact (loginUser_healthy username password w H (user :: rest) Hrest Hcmp).
Qed.

Lemma registerUser_duplicate username email password w err w1 :
  registerUser K username email password w = (Throw err, w1) ->
  err = DuplicateUsername \/ err = DuplicateEmail ->
  db w1 = db w /\ salts w1 = salts w /\ hashed (trace w1) = hashed (trace w).
Proof.
  unfold registerUser. intros H Herr.
  assert (Hnot : forall code, err <> DriverError code)
    by (intros code ->; destruct Herr; discriminate).
  assert (Hnot' : err <> CreationFailed)
    by (intros ->; destruct Herr; discriminate).
  apply bind_Throw in H as [H | (rows & w2 & E1 & H)].
  { apply executeQuery_Throw in H as ((code & ->) & _). destruct (Hnot code eq_refl). }
  apply executeQuery_Ok in E1. destruct E1 as (E1 & Hc & Hs & Hh).
  simpl in E1. injection E1 as _ Hd.
  apply bind_Throw in H as [H | ([] & w3 & _ & H)].
  - (* the check threw *)
    destruct rows as [|existing rest]; [discriminate|].
    destruct (U.USERNAME existing =? username)%string;
      [|destruct (U.EMAIL existing =? email)%string];
      try discriminate;
      unfold throw in H; injection H as _ <-; rewrite Hd; auto.
  - (* anything thrown later is not a duplicate error *)
    exfalso.
    apply bind_Throw in H as [H | (h & w4 & _ & H)]; [discriminate|].
    apply bind_Throw in H as [H | ([] & w5 & _ & H)].
    { apply executeQuery_Throw in H as ((code & ->) & _). exact (Hnot code eq_refl). }
    apply bind_Throw in H as [H | (users & w6 & _ & H)].
    { apply executeQuery_Throw in H as ((code & ->) & _). exact (Hnot code eq_refl). }
    destruct users; [|discriminate].
    unfold throw in H. injection H as <- _. exact (Hnot' eq_refl).
Qed.

(** C10. When register fails with the duplicate-username or the
    duplicate-email error, the database is as it was (no user row was
    inserted) and bcrypt was never asked to hash: the check throws before
    the hashing step and before the INSERT. *)
Theorem register_duplicate_leaves_store :
  forall username email password w err w1,
    registerUser K username email password w = (Throw err, w1) ->
    err = DuplicateUsername \/ err = DuplicateEmail ->
    db w1 = db w /\
    hashed (trace w1) = hashed (trace w) /\
    salts w1 = salts w.
Proof.
  intros username email password w err w1 H Herr.
  destruct (registerUser_duplicate _ _ _ _ _ _ H Herr) as (Hd & Hs & Hh).
  auto.
Qed.

Lemma registerUser_existing username email password w existing :
  healthy w ->
  find (matches_user username email) (HMS_USERS (db w)) = Some existing ->
  fst (registerUser K username email password w) =
    Throw (if (U.USERNAME existing =? username)%string
           then DuplicateUsername else DuplicateEmail).
Proof.
  intros H Hf. unfold registerUser, bind.
  destruct (executeQuery_healthy_run (checkUserSql username email) w H)
    as (w1 & E & _). rewrite E.
  unfold statement_result; simpl.
  destruct (filter_head_find _ _ _ Hf) as [rest ->].
  apply find_some in Hf as [_ Hm]. unfold matches_user in Hm.
  destruct (U.USERNAME existing =? username)%string; simpl; [reflexivity|].
  simpl in Hm. rewrite Hm. reflexivity.
Qed.

Lemma find_exists {A} (p : A -> bool) (l : list A) x :
  In x l -> p x = true -> exists y, find p l = Some y.
Proof.
  intros Hin Hp. destruct (find p l) as [y|] eqn:E; eauto.
  rewrite (find_none _ _ E x Hin) in Hp. discriminate.
Qed.

(** C4, as the code has it. Register looks only at the first stored row
    whose username is u or whose email is e: it fails with
    DuplicateUsername when that row's username is u and with DuplicateEmail
    otherwise.  Hence a collision always fails with one of the two errors;
    a username collision with no email collision gives DuplicateUsername;
    an email collision with no username collision gives DuplicateEmail; and
    when one and the same row carries both u and e, the username is
    reported. *)
Theorem register_reports_first_collision :
  forall username email password w,
    healthy w ->
    (forall existing,
       find (matches_user username email) (HMS_USERS (db w)) = Some existing ->
       fst (registerUser K username email password w) =
         Throw (if (U.USERNAME existing =? username)%string
                then DuplicateUsername else DuplicateEmail)) /\
    (forall r, In r (HMS_USERS (db w)) ->
       U.USERNAME r = username \/ U.EMAIL r = email ->
       fst (registerUser K username email password w) = Throw DuplicateUsername \/
       fst (registerUser K username email password w) = Throw DuplicateEmail) /\
    (forall r, In r (HMS_USERS (db w)) -> U.USERNAME r = username ->
       (forall r', In r' (HMS_USERS (db w)) -> U.EMAIL r' <> email) ->
       fst (registerUser K username email password w) = Throw DuplicateUsername) /\
    (forall r, In r (HMS_USERS (db w)) -> U.EMAIL r = email ->
       (forall r', In r' (HMS_USERS (db w)) -> U.USERNAME r' <> username) ->
       fst (registerUser K username email password w) = Throw DuplicateEmail) /\
    (forall r, db_wf (db w) -> In r (HMS_USERS (db w)) ->
       U.USERNAME r = username -> U.EMAIL r = email ->
       fst (registerUser K username email password w) = Throw DuplicateUsername).
Proof.
  intros username email password w H.
  assert (Hmatch : forall r, In r (HMS_USERS (db w)) ->
            U.USERNAME r = username \/ U.EMAIL r = email ->
            exists existing,
              find (matches_user username email) (HMS_USERS (db w)) = Some existing /\
              In existing (HMS_USERS (db w)) /\
              (U.USERNAME existing = username \/ U.EMAIL existing = email)).
  { intros r Hin Hr.
    destruct (find_exists (matches_user username email) _ r Hin) as [y Hy].
    - unfold matches_user. apply orb_true_iff.
      destruct Hr as [Hr|Hr]; [left|right]; apply String.eqb_eq; exact Hr.
    - exists y. split; auto. apply find_some in Hy as [Hiny Hm].
      unfold matches_user in Hm. apply orb_true_iff in Hm.
      rewrite !String.eqb_eq in Hm. auto. }
  repeat split.
  - intros existing Hf. apply registerUser_existing; assumption.
  - intros r Hin Hr. destruct (Hmatch r Hin Hr) as (x & Hf & _).
    rewrite (registerUser_existing _ _ _ _ _ H Hf).
    destruct (U.USERNAME x =? username)%string; auto.
  - intros r Hin Hu Hno. destruct (Hmatch r Hin (or_introl Hu)) as (x & Hf & Hx & Hm).
    rewrite (registerUser_existing _ _ _ _ _ H Hf).
    destruct Hm as [Hm|Hm]; [|destruct (Hno x Hx Hm)].
    apply String.eqb_eq in Hm. rewrite Hm. reflexivity.
  - intros r Hin He Hno. destruct (Hmatch r Hin (or_intror He)) as (x & Hf & Hx & Hm).
    rewrite (registerUser_existing _ _ _ _ _ H Hf).
    destruct (U.USERNAME x =? username)%string eqn:Eu; [|reflexivity].
    apply String.eqb_eq in Eu. destruct (Hno x Hx Eu).
  - intros r W Hin Hu He.
    destruct (Hmatch r Hin (or_introl Hu)) as (x & Hf & Hx & Hm).
    rewrite (registerUser_existing _ _ _ _ _ H Hf).
    assert (x = r).
    { destruct Hm as [Hm|Hm].
      - apply (NoDup_map_inj U.USERNAME (HMS_USERS (db w))); auto.
        + apply (wf_username_unique _ W).
        + congruence.
      - apply (NoDup_map_inj U.EMAIL (HMS_USERS (db w))); auto.
        + apply (wf_email_unique _ W).
        + congruence. }
    subst x. apply String.eqb_eq in Hu. rewrite Hu. reflexivity.
Qed.

Lemma refreshAccessToken_healthy t w :
  healthy w -> truthy t = true ->
  fst (refreshAccessToken K t w) =
    match verify_refresh K (clock w) (text t) with
    | None => Throw InvalidOrExpiredToken
    | Some _ =>
        match findActive (clock w) (text t) (db w) with
        | [] => Throw InvalidOrExpiredToken
        | tokenData :: _ =>
            Ok {| Refreshed.accessToken :=
                    sign_access K (clock w)
                      {| AccessClaims.userId := TokenData.USER_ID tokenData;
                         AccessClaims.username := TokenData.USERNAME tokenData;
                         AccessClaims.email := TokenData.EMAIL tokenData |};
                  Refreshed.user :=
                    {| User.id := TokenData.USER_ID tokenData;
                       User.username := TokenData.USERNAME tokenData;
                       User.email := TokenData.EMAIL tokenData |} |}
        end
    end.
Proof.
  intros H Ht. unfold refreshAccessToken. rewrite Ht. simpl.
  unfold bind, try_catch, verifyRefreshToken.
  destruct (verify_refresh K (clock w) (text t)); simpl; [|reflexivity].
  destruct (executeQuery_healthy_run (checkTokenSql (text t)) w H)
    as (w1 & E & _ & _ & Hc & _). rewrite E.
  unfold statement_result; simpl.
  destruct (findActive (clock w) (text t) (db w)); simpl; [reflexivity|].
  unfold generateAccessToken; simpl. rewrite Hc. reflexivity.
Qed.

Lemma refreshAccessToken_rejects t w :
  healthy w -> truthy t = true ->
  (forall rt, In rt (HMS_REFRESH_TOKENS (db w)) ->
              active (clock w) (text t) rt = false) ->
  fst (refreshAccessToken K t w) = Throw InvalidOrExpiredToken.
Proof.
  intros H Ht Hnone. rewrite refreshAccessToken_healthy by assumption.
  rewrite (findActive_none _ _ _ Hnone).
  destruct (verify_refresh K (clock w) (text t)); reflexivity.
Qed.

Lemma inactive_cases now token rt :
  (RT.TOKEN rt = token -> RT.IS_REVOKED rt = true \/ RT.EXPIRES_AT rt <= now) ->
  active now token rt = false.
Proof.
  intros H. destruct (active now token rt) eqn:E; [|reflexivity].
  apply active_spec in E as (Ht & Hr & He).
  destruct (H Ht); [congruence | lia].
Qed.

(** C5. Refresh fails with MissingToken on an absent argument (undefined,
    or the empty string, which [!refreshToken] treats alike).  Otherwise
    it verifies the token first: when verification fails it throws
    InvalidOrExpiredToken and the world is untouched, so the store was not
    consulted.  When verification passes it consults the store and throws
    the same InvalidOrExpiredToken if every row of the token is revoked or
    expired, or there is none. *)
Theorem refresh_failures :
  forall t w,
    (truthy t = false ->
     refreshAccessToken K t w = (Throw MissingToken, w)) /\
    (truthy t = true ->
     verify_refresh K (clock w) (text t) = None ->
     refreshAccessToken K t w = (Throw InvalidOrExpiredToken, w)) /\
    (truthy t = true ->
     verify_refresh K (clock w) (text t) <> None ->
     healthy w ->
     (forall rt, In rt (HMS_REFRESH_TOKENS (db w)) ->
                 RT.TOKEN rt = text t ->
                 RT.IS_REVOKED rt = true \/ RT.EXPIRES_AT rt <= clock w) ->
     fst (refreshAccessToken K t w) = Throw InvalidOrExpiredToken /\
     exists c events,
       trace (snd (refreshAccessToken K t w)) = events ++ trace w /\
       In (EvExecute c) events).
Proof.
  intros t w. split; [|split].
  - intros Ht. unfold refreshAccessToken. rewrite Ht. reflexivity.
  - intros Ht Hv. unfold refreshAccessToken. rewrite Ht. simpl.
    unfold bind, try_catch, verifyRefreshToken. rewrite Hv. reflexivity.
  - intros Ht Hv H Hrows. split.
    + apply refreshAccessToken_rejects; auto.
      intros rt Hin. apply inactive_cases. auto.
    + unfold refreshAccessToken. rewrite Ht. simpl.
      unfold bind, try_catch, verifyRefreshToken.
      destruct (verify_refresh K (clock w) (text t)); [|contradiction]. simpl.
      destruct w as [d ck p l n sc sa tr]. unfold healthy in H. simpl in H. subst sc.
      unfold_connection.
      destruct p; simpl;
        destruct (findActive ck (text t) d); simpl;
        eexists; eexists; (split; [new_events | simpl; eauto 10]).
Qed.

Lemma usable_active now token d :
  usable now token d <->
  exists rt, In rt (HMS_REFRESH_TOKENS d) /\ active now token rt = true.
Proof.
  unfold usable. split; intros (rt & Hin & H); exists rt; split; auto.
  - apply active_spec. exact H.
  - apply active_spec in H. exact H.
Qed.

Lemma findActive_nil_iff now token d :
  db_wf d -> (findActive now token d = [] <-> ~ usable now token d).
Proof.
  intros W. rewrite usable_active. split.
  - intros Hnil (rt & Hin & Hact).
    pose proof (wf_owner _ W) as Hown. rewrite Forall_forall in Hown.
    destruct (Hown rt Hin) as (u & Hu & Hid).
    rewrite (findActive_unique now token d rt u) in Hnil by assumption.
    discriminate.
  - intros Hno. apply findActive_none. intros rt Hin.
    destruct (active now token rt) eqn:E; [|reflexivity].
    exfalso. apply Hno. eauto.
Qed.

Lemma findActive_head_iff now token d td :
  db_wf d ->
  (hd_error (findActive now token d) = Some td <->
   exists rt u,
     In rt (HMS_REFRESH_TOKENS d) /\ RT.TOKEN rt = token /\
     RT.IS_REVOKED rt = false /\ now < RT.EXPIRES_AT rt /\
     In u (HMS_USERS d) /\ U.ID u = RT.USER_ID rt /\ td = token_data u).
Proof.
  intros W. split.
  - intros Hhd.
    assert (Hin : In td (findActive now token d)).
    { destruct (findActive now token d); [discriminate|].
      injection Hhd as ->. left; reflexivity. }
    apply findActive_In in Hin as (rt & u & Hrt & Hact & Hu & Hid & ->).
    apply active_spec in Hact as (? & ? & ?). exists rt, u. auto 10.
  - intros (rt & u & Hrt & Ht & Hr & He & Hu & Hid & ->).
    rewrite (findActive_unique now token d rt u); auto.
    apply active_spec. auto.
Qed.

(** C6. The lookup refresh performs yields the identity (userId, username,
    email) of the owning user if and only if the table holds a row for the
    token that is not revoked and expires strictly after now; it yields no
    row at all otherwise, whether the token is unknown, revoked or expired.
    A present token that passes verification is accepted by refresh exactly
    when it is usable in that sense, with the owner's identity, and is
    otherwise refused with the one error InvalidOrExpiredToken. *)
Theorem lookup_finds_owner_iff_usable :
  forall token w,
    healthy w -> db_wf (db w) ->
    exists rows,
      fst (executeQuery (checkTokenSql token) w) = Ok rows /\
      (forall td,
         hd_error rows = Some td <->
         exists rt u,
           In rt (HMS_REFRESH_TOKENS (db w)) /\ RT.TOKEN rt = token /\
           RT.IS_REVOKED rt = false /\ clock w < RT.EXPIRES_AT rt /\
           In u (HMS_USERS (db w)) /\ U.ID u = RT.USER_ID rt /\
           td = {| TokenData.USER_ID := U.ID u;
                   TokenData.USERNAME := U.USERNAME u;
                   TokenData.EMAIL := U.EMAIL u |}) /\
      (rows = [] <-> ~ usable (clock w) token (db w)) /\
      (token <> "" -> verify_refresh K (clock w) token <> None ->
       ((exists r, fst (refreshAccessToken K (Some token) w) = Ok r) <->
        usable (clock w) token (db w)) /\
       (~ usable (clock w) token (db w) ->
        fst (refreshAccessToken K (Some token) w) = Throw InvalidOrExpiredToken) /\
       (forall r, fst (refreshAccessToken K (Some token) w) = Ok r ->
          exists rt u,
            In rt (HMS_REFRESH_TOKENS (db w)) /\ RT.TOKEN rt = token /\
            RT.IS_REVOKED rt = false /\ clock w < RT.EXPIRES_AT rt /\
            In u (HMS_USERS (db w)) /\ U.ID u = RT.USER_ID rt /\
            Refreshed.user r = identity u)).
Proof.
  intros token w H W.
  exists (findActive (clock w) token (db w)).
  destruct (executeQuery_healthy (checkTokenSql token) w H) as (Hr & _).
  split; [exact Hr|].
  split; [intros td; apply findActive_head_iff; exact W|].
  split; [apply findActive_nil_iff; exact W|].
  intros Hne Hv.
  assert (Ht : truthy (Some token) = true).
  { simpl. apply negb_true_iff. apply String.eqb_neq. exact Hne. }
  pose proof (refreshAccessToken_healthy (Some token) w H Ht) as E.
  simpl text in E.
  destruct (verify_refresh K (clock w) token); [clear Hv|contradiction].
  pose proof (findActive_nil_iff (clock w) token (db w) W) as Hnil.
  pose proof (fun td => findActive_head_iff (clock w) token (db w) td W) as Hhd.
  destruct (findActive (clock w) token (db w)) as [|td rest].
  - assert (Hno : ~ usable (clock w) token (db w)) by (apply Hnil; reflexivity).
    rewrite E. split; [split|split].
    + intros [r Hr']. discriminate.
    + intros Hu. contradiction.
    + reflexivity.
    + intros r Hr'. discriminate.
  - assert (Hyes : usable (clock w) token (db w)).
    { destruct (proj1 (Hhd td) eq_refl) as (rt & u & ? & ? & ? & ? & _).
      exists rt. auto. }
    rewrite E. split; [split|split].
    + intros _. exact Hyes.
    + eauto.
    + intros Hno. contradiction.
    + intros r [= <-].
      destruct (proj1 (Hhd td) eq_refl) as (rt & u & ? & ? & ? & ? & ? & ? & ->).
      exists rt, u. simpl. auto 10.
Qed.

Lemma steps_db w w' :
  steps K w w' ->
  evolves (db w) (db w') /\
  grows (HMS_REFRESH_TOKENS (db w)) (HMS_REFRESH_TOKENS (db w')) /\
  extends (HMS_USERS (db w)) (HMS_USERS (db w')) /\
  (db_wf (db w) -> db_wf (db w')).
Proof.
  intros H. pose proof (steps_evolves K w w' H) as E.
  destruct (evolves_grows _ _ E) as [G X].
  split; [exact E|]. split; [exact G|]. split; [exact X|].
  intros W. exact (evolves_wf _ _ E W).
Qed.

(** A stored row keeps its place; with unique tokens, every later row of
    the same token is that row, aged. *)
Lemma token_row_pinned l l' i r rt :
  grows l l' -> NoDup (map RT.TOKEN l') ->
  nth_error l i = Some r ->
  In rt l' -> RT.TOKEN rt = RT.TOKEN r ->
  ages r rt.
Proof.
  intros G Hnd Hi Hin Ht.
  destruct (grows_nth _ _ G i r Hi) as (r' & Hi' & Ha).
  assert (rt = r').
  { apply (NoDup_map_inj RT.TOKEN l'); auto.
    - eapply nth_error_In; eassumption.
    - destruct Ha as (_ & Ht' & _). congruence. }
  subst. assumption.
Qed.

(** C8. Whatever requests the service answers in whatever order, a stored
    refresh-token row is never deleted and never un-revoked: it stays at
    its position with the same owner, token, expiry and creation time, and
    once its revoked flag is set it is set in every later state. *)
Theorem revoked_is_terminal :
  forall w w',
    steps K w w' ->
    forall i r,
      nth_error (HMS_REFRESH_TOKENS (db w)) i = Some r ->
      exists r',
        nth_error (HMS_REFRESH_TOKENS (db w')) i = Some r' /\
        RT.USER_ID r' = RT.USER_ID r /\
        RT.TOKEN r' = RT.TOKEN r /\
        RT.EXPIRES_AT r' = RT.EXPIRES_AT r /\
        RT.CREATED_AT r' = RT.CREATED_AT r /\
        (RT.IS_REVOKED r = true -> RT.IS_REVOKED r' = true).
Proof.
  intros w w' H i r Hi.
  destruct (steps_db w w' H) as (_ & G & _).
  destruct (grows_nth _ _ G i r Hi) as (r' & Hi' & Ha).
  exists r'. split; [assumption | exact Ha].
Qed.

Lemma logoutUser_healthy t w :
  healthy w ->
  fst (logoutUser t w) = Ok tt /\
  healthy (snd (logoutUser t w)) /\
  db (snd (logoutUser t w)) =
    if truthy t
    then {| HMS_USERS := HMS_USERS (db w);
            HMS_REFRESH_TOKENS := map (revoke_row (text t)) (HMS_REFRESH_TOKENS (db w));
            AUTO_INCREMENT := AUTO_INCREMENT (db w) |}
    else db w.
Proof.
  intros H. unfold logoutUser.
  destruct (truthy t); simpl; [|auto].
  destruct (executeQuery_healthy (revokeSql (text t)) w H) as (Hr & Hd & Hh).
  auto.
Qed.

Lemma revoke_row_revoked token rt :
  RT.TOKEN rt = token -> RT.IS_REVOKED (revoke_row token rt) = true.
Proof.
  intros Ht. unfold revoke_row.
  apply String.eqb_eq in Ht. rewrite Ht. simpl.
  destruct (RT.IS_REVOKED rt) eqn:E; simpl; auto.
Qed.

Lemma refreshAccessToken_db t w :
  db (snd (refreshAccessToken K t w)) = db w.
Proof.
  unfold refreshAccessToken.
  destruct (negb (truthy t)); [reflexivity|].
  unfold bind, try_catch, verifyRefreshToken.
  destruct (verify_refresh K (clock w) (text t)); simpl; [|reflexivity].
  destruct (executeQuery_run (checkTokenSql (text t)) w) as (_ & _ & _ & Hd).
  assert (Hdb : db (snd (executeQuery (checkTokenSql (text t)) w)) = db w)
    by (destruct Hd as [[_ Hd]|[_ Hd]]; exact Hd).
  destruct (executeQuery (checkTokenSql (text t)) w) as [[[|td rest]|e] w1];
    simpl in *; assumption.
Qed.

(** C1. Logout never fails, whatever its argument: a present token, the
    same token a second time, a token never issued, or no argument at all
    (which returns at once and leaves the world as it is).  After
    logout(t) of a present token, refresh(t) fails with
    InvalidOrExpiredToken; and when the store held a row for t, it does so
    in every state the service reaches afterwards. *)
Theorem logout_revokes :
  forall t w,
    healthy w ->
    fst (logoutUser t w) = Ok tt /\
    fst (logoutUser t (snd (logoutUser t w))) = Ok tt /\
    (truthy t = false -> logoutUser t w = (Ok tt, w)) /\
    (truthy t = true ->
     forall w', db w' = db (snd (logoutUser t w)) -> healthy w' ->
       fst (refreshAccessToken K t w') = Throw InvalidOrExpiredToken) /\
    (truthy t = true -> db_wf (db w) ->
     (exists rt, In rt (HMS_REFRESH_TOKENS (db w)) /\ RT.TOKEN rt = text t) ->
     forall w', steps K (snd (logoutUser t w)) w' -> healthy w' ->
       fst (refreshAccessToken K t w') = Throw InvalidOrExpiredToken).
Proof.
  intros t w H.
  destruct (logoutUser_healthy t w H) as (Hr & Hh & Hd).
  split; [exact Hr|].
  split; [apply (logoutUser_healthy t _ Hh)|].
  split; [intros Ht; unfold logoutUser; rewrite Ht; reflexivity|].
  split.
  - intros Ht w' Hdb Hh'.
    apply refreshAccessToken_rejects; auto.
    intros rt Hin. apply inactive_cases. intros Htok. left.
    rewrite Hdb, Hd, Ht in Hin. simpl in Hin.
    apply in_map_iff in Hin as (rt0 & <- & Hin0).
    apply revoke_row_revoked.
    rewrite <- Htok. symmetry. apply (ages_revoke (text t) rt0).
  - intros Ht W (rt0 & Hin0 & Htok0) w' Hsteps Hh'.
    apply refreshAccessToken_rejects; auto.
    intros rt Hin. apply inactive_cases. intros Htok. left.
    destruct (steps_db _ _ Hsteps) as (_ & G & _ & Hwf).
    rewrite Hd, Ht in G, Hwf. simpl in G.
    destruct (In_nth_error _ _ Hin0) as [i Hi].
    assert (W1 : db_wf
              {| HMS_USERS := HMS_USERS (db w);
                 HMS_REFRESH_TOKENS := map (revoke_row (text t)) (HMS_REFRESH_TOKENS (db w));
                 AUTO_INCREMENT := AUTO_INCREMENT (db w) |}).
    { apply (statement_wf (revokeSql (text t)) 0 (db w) tt); [reflexivity | exact W]. }
    assert (Ha : ages (revoke_row (text t) rt0) rt).
    { apply (token_row_pinned
               (map (revoke_row (text t)) (HMS_REFRESH_TOKENS (db w)))
               (HMS_REFRESH_TOKENS (db w')) i); auto.
      - apply (wf_token_unique _ (Hwf W1)).
      - rewrite nth_error_map, Hi. reflexivity.
      - rewrite Htok. destruct (ages_revoke (text t) rt0) as (_ & -> & _).
        symmetry; exact Htok0. }
    destruct Ha as (_ & _ & _ & _ & Hrev). apply Hrev.
    apply revoke_row_revoked. exact Htok0.
Qed.

(** C2. Refresh writes nothing: the database after refresh is the database
    before it.  So a token issued by login is accepted by refresh right
    after issuance and on every later call, whatever requests were served
    in between, as long as no row of it is revoked, the token still
    verifies and seven days have not gone by since the login, and refresh
    then reports the identity login reported; once the expiry has been
    reached, refresh fails with InvalidOrExpiredToken. *)
Theorem refresh_keeps_session :
  forall username password w s w1,
    db_wf (db w) ->
    loginUser K username password w = (Ok s, w1) ->
    Session.refreshToken s <> "" ->
    (forall t w0, db (snd (refreshAccessToken K t w0)) = db w0) /\
    (forall w',
       steps K w1 w' -> healthy w' ->
       (clock w' < clock w + 7 * 86400000 ->
        verify_refresh K (clock w') (Session.refreshToken s) <> None ->
        (forall rt, In rt (HMS_REFRESH_TOKENS (db w')) ->
                    RT.TOKEN rt = Session.refreshToken s ->
                    RT.IS_REVOKED rt = false) ->
        exists r,
          fst (refreshAccessToken K (Some (Session.refreshToken s)) w') = Ok r /\
          Refreshed.user r = Session.user s) /\
       (clock w + 7 * 86400000 <= clock w' ->
        fst (refreshAccessToken K (Some (Session.refreshToken s)) w') =
          Throw InvalidOrExpiredToken)).
Proof.
  intros username password w s w1 W Hlogin Hne.
  split; [intros; apply refreshAccessToken_db|].
  intros w' Hsteps Hh'.
  destruct (loginUser_Ok _ _ _ _ _ Hlogin)
    as (user & rest & Hf & _ & _ & Htok & Husers & _ & Hs).
  set (t := Session.refreshToken s) in *.
  assert (Ht : truthy (Some t) = true).
  { simpl. apply negb_true_iff. apply String.eqb_neq. exact Hne. }
  assert (Huser : In user (HMS_USERS (db w))).
  { assert (Hin : In user (filter (matches_user username username) (HMS_USERS (db w))))
      by (rewrite Hf; left; reflexivity).
    apply filter_In in Hin. tauto. }
  assert (Hall : steps K w w').
  { apply steps_request with (Login username password). simpl.
    rewrite Hlogin. exact Hsteps. }
  destruct (steps_db _ _ Hall) as (_ & _ & _ & Hwf). specialize (Hwf W).
  destruct (steps_db _ _ Hsteps) as (_ & G & Hext & _).
  rewrite Htok in G. rewrite Husers in Hext.
  set (row := session_row (clock w) user t) in *.
  assert (Hi : nth_error (HMS_REFRESH_TOKENS (db w) ++ [row])
                 (List.length (HMS_REFRESH_TOKENS (db w))) = Some row).
  { rewrite nth_error_app2 by lia. rewrite Nat.sub_diag. reflexivity. }
  destruct (grows_nth _ _ G _ _ Hi) as (r' & Hi' & Ha).
  assert (Hin' : In r' (HMS_REFRESH_TOKENS (db w')))
    by (eapply nth_error_In; eassumption).
  destruct Ha as (Huid & Htk & Hexp & _ & _). simpl in Huid, Htk, Hexp.
  split.
  - intros Hbefore Hv Hunrevoked.
    assert (Hact : active (clock w') t r' = true).
    { apply active_spec. repeat split; auto.
      rewrite Hexp. unfold addDays. lia. }
    pose proof (refreshAccessToken_healthy (Some t) w' Hh' Ht) as E.
    simpl text in E.
    destruct (verify_refresh K (clock w') t); [|contradiction].
    rewrite (findActive_unique (clock w') t (db w') r' user) in E; auto.
    + eexists. split; [exact E|]. simpl. rewrite Hs. reflexivity.
    + eapply extends_In; eassumption.
  - intros Hafter.
    apply refreshAccessToken_rejects; auto.
    intros rt Hin. apply inactive_cases. simpl. intros Htok'. right.
    assert (Hages : ages row rt).
    { apply (token_row_pinned (HMS_REFRESH_TOKENS (db w) ++ [row])
               (HMS_REFRESH_TOKENS (db w'))
               (List.length (HMS_REFRESH_TOKENS (db w)))); auto.
      apply (wf_token_unique _ Hwf). }
    destruct Hages as (_ & _ & Hexp' & _). rewrite Hexp'. simpl.
    unfold addDays. lia.
Qed.

End Service.

(** * Concrete runs *)

Lemma w_two_reached : steps demo boot w_two.
Proof.
  unfold w_two, w_bob.
  apply steps_request with (Register "bob" "a@x.com" "pw0").
  apply steps_request with (Register "alice" "b@x.com" "pw1").
  apply steps_done.
Qed.

Lemma w_two_wf : db_wf (db w_two).
Proof.
  destruct (steps_db demo boot w_two w_two_reached) as (_ & _ & _ & H).
  apply H. exact empty_db_wf.
Qed.

Lemma w_session_reached : steps demo w_two w_session.
Proof.
  unfold w_session.
  apply steps_request with (Login "alice" "pw1"). apply steps_done.
Qed.

Lemma w_session_wf : db_wf (db w_session).
Proof.
  destruct (steps_db demo w_two w_session w_session_reached) as (_ & _ & _ & H).
  apply H. exact w_two_wf.
Qed.

Lemma alice_login : loginUser demo "alice" "pw1" w_two = (Ok alice_session, w_session).
Proof. vm_compute. reflexivity. Qed.

Lemma w_two_healthy : healthy w_two.
Proof. vm_compute. reflexivity. Qed.

Lemma w_session_healthy : healthy w_session.
Proof. vm_compute. reflexivity. Qed.

Lemma w_closed_healthy : healthy w_closed.
Proof. vm_compute. reflexivity. Qed.

Lemma w_two_users : HMS_USERS (db w_two) = [bob_row; alice_row].
Proof. vm_compute. reflexivity. Qed.

Lemma w_session_tokens :
  HMS_REFRESH_TOKENS (db w_session) = [alice_session_row false].
Proof. vm_compute. reflexivity. Qed.

Lemma w_closed_tokens :
  HMS_REFRESH_TOKENS (db w_closed) = [alice_session_row true].
Proof. vm_compute. reflexivity. Qed.

Lemma w_refreshed_tokens :
  HMS_REFRESH_TOKENS (db w_refreshed) = [alice_session_row false].
Proof. vm_compute. reflexivity. Qed.

Lemma w_refreshed_healthy : healthy w_refreshed.
Proof. vm_compute. reflexivity. Qed.

Lemma set_clock_db t w : db (set_clock t w) = db w.
Proof. reflexivity. Qed.

(** After logging the session out, logout again succeeds and refresh is
    refused. *)
Lemma logout_revokes_witness :
  healthy w_session /\
  fst (logoutUser (Some "rt.2.1000") w_session) = Ok tt /\
  fst (logoutUser (Some "rt.2.1000") w_closed) = Ok tt /\
  fst (logoutUser None w_session) = Ok tt /\
  fst (refreshAccessToken demo (Some "rt.2.1000") w_closed) =
    Throw InvalidOrExpiredToken.
Proof.
  pose proof w_session_healthy as H.
  destruct (logout_revokes demo (Some "rt.2.1000") w_session H)
    as (H1 & H2 & _ & H4 & _).
  destruct (logout_revokes demo None w_session H) as (H1' & _).
  split; [exact H|]. split; [exact H1|]. split; [exact H2|]. split; [exact H1'|].
  apply H4.
  - vm_compute. reflexivity.
  - unfold w_closed. reflexivity.
  - exact w_closed_healthy.
Defined.

(** The session opened for alice is accepted right away and again after
    it has been used, and refused once seven days have gone by. *)
Lemma refresh_keeps_session_witness :
  db_wf (db w_two) /\
  (exists r,
     fst (refreshAccessToken demo (Some "rt.2.1000") w_session) = Ok r /\
     Refreshed.user r = Session.user alice_session) /\
  (exists r,
     fst (refreshAccessToken demo (Some "rt.2.1000") w_refreshed) = Ok r /\
     Refreshed.user r = Session.user alice_session) /\
  fst (refreshAccessToken demo (Some "rt.2.1000") (set_clock 604801000 w_session)) =
    Throw InvalidOrExpiredToken.
Proof.
  assert (Hne : Session.refreshToken alice_session <> "")
    by (vm_compute; discriminate).
  destruct (refresh_keeps_session demo "alice" "pw1" w_two alice_session w_session
              w_two_wf alice_login Hne) as (_ & H).
  split; [exact w_two_wf|]. split; [|split].
  - destruct (H w_session (steps_done demo w_session) w_session_healthy)
      as (Hpos & _).
    apply Hpos.
    + vm_compute. reflexivity.
    + vm_compute. discriminate.
    + intros rt Hin _. rewrite w_session_tokens in Hin.
      destruct Hin as [<-|[]]. reflexivity.
  - destruct (H w_refreshed) as (Hpos & _).
    + unfold w_refreshed.
      apply steps_request with (Refresh (Some "rt.2.1000")). apply steps_done.
    + exact w_refreshed_healthy.
    + apply Hpos.
      * vm_compute. reflexivity.
      * vm_compute. discriminate.
      * intros rt Hin _. rewrite w_refreshed_tokens in Hin.
        destruct Hin as [<-|[]]. reflexivity.
  - destruct (H (set_clock 604801000 w_session)) as (_ & Hneg).
    + apply steps_env with (set_clock 604801000 w_session);
        [apply set_clock_db | apply steps_done].
    + vm_compute. reflexivity.
    + apply Hneg. vm_compute. discriminate.
Defined.

(** An unknown identifier and a wrong password fail alike. *)
Lemma login_failures_alike_witness :
  healthy w_two /\
  fst (loginUser demo "nouser" "x" w_two) = Throw InvalidCredentials /\
  fst (loginUser demo "alice" "wrongpass" w_two) = Throw InvalidCredentials.
Proof.
  pose proof w_two_healthy as H.
  split; [exact H|]. split.
  - apply (proj1 (login_failures_alike demo "nouser" "x" w_two H)).
    intros r Hin. rewrite w_two_users in Hin.
    destruct Hin as [<-|[<-|[]]]; split; discriminate.
  - apply (proj2 (login_failures_alike demo "alice" "wrongpass" w_two H)
             alice_row);
      vm_compute; reflexivity.
Defined.

(** C4 as stated fails. With bob registered under a@x.com before alice,
    registering alice again with bob's email meets bob's row first: a row
    with username alice and a row with that email both exist, yet the
    error is DuplicateEmail, not DuplicateUsername. *)
Lemma register_username_priority_fails :
  ~ (forall (K : Primitives) username email password w,
       healthy w -> db_wf (db w) ->
       (exists r, In r (HMS_USERS (db w)) /\ U.USERNAME r = username) ->
       (exists r, In r (HMS_USERS (db w)) /\ U.EMAIL r = email) ->
       fst (registerUser K username email password w) = Throw DuplicateUsername).
Proof.
  intros claim.
  assert (H : fst (registerUser demo "alice" "a@x.com" "pw2" w_two) =
              Throw DuplicateUsername).
  { apply claim.
    - exact w_two_healthy.
    - exact w_two_wf.
    - exists alice_row.
      split; [rewrite w_two_users; simpl; auto | reflexivity].
    - exists bob_row.
      split; [rewrite w_two_users; simpl; auto | reflexivity]. }
  assert (E : fst (registerUser demo "alice" "a@x.com" "pw2" w_two) =
              Throw DuplicateEmail) by (vm_compute; reflexivity).
  rewrite E in H. clear claim.
  unfold DuplicateEmail, DuplicateUsername in H. discriminate H.
Qed.

(** The first colliding row decides: bob's row carries the email, so the
    email is reported; asked with alice's own email, the username is. *)
Lemma register_reports_first_collision_witness :
  healthy w_two /\
  fst (registerUser demo "alice" "a@x.com" "pw2" w_two) = Throw DuplicateEmail /\
  fst (registerUser demo "alice" "b@x.com" "pw2" w_two) = Throw DuplicateUsername.
Proof.
  pose proof w_two_healthy as H.
  split; [exact H|]. split.
  - apply (proj1 (register_reports_first_collision demo "alice" "a@x.com" "pw2" w_two H)
             bob_row).
    vm_compute. reflexivity.
  - destruct (register_reports_first_collision demo "alice" "b@x.com" "pw2" w_two H)
      as (_ & _ & _ & _ & Hboth).
    apply (Hboth alice_row).
    + exact w_two_wf.
    + rewrite w_two_users. simpl. auto.
    + reflexivity.
    + reflexivity.
Defined.

(** No argument, a token that does not verify, and a revoked token. *)
Lemma refresh_failures_witness :
  refreshAccessToken demo None w_closed = (Throw MissingToken, w_closed) /\
  refreshAccessToken demo (Some "garbage") w_closed =
    (Throw InvalidOrExpiredToken, w_closed) /\
  fst (refreshAccessToken demo (Some "rt.2.1000") w_closed) =
    Throw InvalidOrExpiredToken.
Proof.
  split; [|split].
  - apply (proj1 (refresh_failures demo None w_closed)).
    vm_compute. reflexivity.
  - apply (proj1 (proj2 (refresh_failures demo (Some "garbage") w_closed)));
      vm_compute; reflexivity.
  - apply (proj2 (proj2 (refresh_failures demo (Some "rt.2.1000") w_closed))).
    + vm_compute. reflexivity.
    + vm_compute. discriminate.
    + exact w_closed_healthy.
    + intros rt Hin _. rewrite w_closed_tokens in Hin.
      destruct Hin as [<-|[]]. left. reflexivity.
Defined.

(** The lookup of alice's token finds alice while the session is open. *)
Lemma lookup_finds_owner_iff_usable_witness :
  healthy w_session /\ db_wf (db w_session) /\
  exists rows,
    fst (executeQuery (checkTokenSql "rt.2.1000") w_session) = Ok rows /\
    (rows = [] <-> ~ usable (clock w_session) "rt.2.1000" (db w_session)).
Proof.
  pose proof w_session_healthy as H.
  split; [exact H|]. split; [exact w_session_wf|].
  destruct (lookup_finds_owner_iff_usable demo "rt.2.1000" w_session H w_session_wf)
    as (rows & Hr & _ & Hnil & _).
  exists rows. split; assumption.
Defined.

(** The login of alice stores her session behind the rows already there. *)
Lemma login_stores_one_session_witness :
  loginUser demo "alice" "pw1" w_two = (Ok alice_session, w_session) /\
  exists user,
    HMS_REFRESH_TOKENS (db w_session) =
      HMS_REFRESH_TOKENS (db w_two) ++
        [ {| RT.USER_ID := U.ID user;
             RT.TOKEN := Session.refreshToken alice_session;
             RT.EXPIRES_AT := clock w_two + 7 * 86400000;
             RT.CREATED_AT := clock w_two;
             RT.IS_REVOKED := false |} ].
Proof.
  split; [exact alice_login|].
  destruct (login_stores_one_session demo "alice" "pw1" w_two alice_session w_session
              alice_login) as (user & _ & _ & Htok & _).
  exists user. exact Htok.
Defined.

(** The revoked session row is still there, revoked, after alice logs in
    again later and refreshes. *)
Lemma revoked_is_terminal_witness :
  exists r',
    nth_error (HMS_REFRESH_TOKENS (db w_later)) 0 = Some r' /\
    RT.TOKEN r' = "rt.2.1000" /\ RT.IS_REVOKED r' = true.
Proof.
  assert (Hsteps : steps demo w_closed w_later).
  { unfold w_later.
    apply steps_env with (set_clock 5000 w_closed); [apply set_clock_db|].
    apply steps_request with (Login "alice" "pw1").
    apply steps_request with (Refresh (Some "rt.2.1000")).
    apply steps_done. }
  destruct (revoked_is_terminal demo w_closed w_later Hsteps 0%nat
              (alice_session_row true))
    as (r' & Hi & _ & Ht & _ & _ & Hrev).
  - vm_compute. reflexivity.
  - exists r'. split; [exact Hi|]. split; [exact Ht|]. apply Hrev. reflexivity.
Defined.

(** A statement on which the driver faults: the call throws and still
    leaves no connection leased. *)
Lemma connections_released_on_every_path_witness :
  pool_wf w_faulty /\
  fst (executeQuery (getUserByIdSql 1) w_faulty) = Throw (DriverError "ECONNRESET") /\
  leased (snd (executeQuery (getUserByIdSql 1) w_faulty)) = leased w_faulty.
Proof.
  assert (W : pool_wf w_faulty) by (unfold pool_wf, w_faulty; simpl; constructor).
  split; [exact W|]. split; [vm_compute; reflexivity|].
  exact (proj1 (proj1 (connections_released_on_every_path
                         (getUserByIdSql 1)
                         (fun c => connection_execute c (revokeSql "rt.2.1000"))
                         w_faulty W))).
Defined.

(** Registering alice again under bob's email changes nothing and hashes
    nothing. *)
Lemma register_duplicate_leaves_store_witness :
  fst (registerUser demo "alice" "a@x.com" "pw2" w_two) = Throw DuplicateEmail /\
  db (snd (registerUser demo "alice" "a@x.com" "pw2" w_two)) = db w_two /\
  hashed (trace (snd (registerUser demo "alice" "a@x.com" "pw2" w_two))) =
    hashed (trace w_two).
Proof.
  split; [vm_compute; reflexivity|].
  destruct (register_duplicate_leaves_store demo "alice" "a@x.com" "pw2" w_two
              DuplicateEmail (snd (registerUser demo "alice" "a@x.com" "pw2" w_two)))
    as (Hd & Hh & _).
  - vm_compute. reflexivity.
  - right. reflexivity.
  - split; assumption.
Defined.

(** * Beyond the claims: the rest of the two modules *)

(** ** Registration *)

Section Registration.

Context (K : Primitives).

Lemma no_match_filter username email (users : list U.row) :
  (forall r, In r users -> U.USERNAME r <> username /\ U.EMAIL r <> email) ->
  filter (matches_user username email) users = [] /\
  existsb (matches_user username email) users = false /\
  filter (fun r => (U.USERNAME r =? username)%string) users = [].
Proof.
  intros H.
  assert (Hm : forall r, In r users -> matches_user username email r = false).
  { intros r Hin. destruct (H r Hin) as [Hu He]. unfold matches_user.
    apply String.eqb_neq in Hu, He. rewrite Hu, He. reflexivity. }
  split; [apply filter_nil; exact Hm|]. split.
  - destruct (existsb (matches_user username email) users) eqn:E; [|reflexivity].
    apply existsb_exists in E as (r & Hin & Hr). rewrite (Hm r Hin) in Hr. discriminate.
  - apply filter_nil. intros r Hin. destruct (H r Hin) as [Hu _].
    apply String.eqb_neq. exact Hu.
Qed.

Lemma registerUser_fresh username email password w :
  healthy w ->
  (forall r, In r (HMS_USERS (db w)) ->
             U.USERNAME r <> username /\ U.EMAIL r <> email) ->
  fst (registerUser K username email password w) =
    Ok {| Registered.id := AUTO_INCREMENT (db w);
          Registered.username := username;
          Registered.email := email;
          Registered.createdAt := clock w |} /\
  db (snd (registerUser K username email password w)) =
    with_user (db w)
      (new_user_row w username email
         (hash_with_salt K (salts w) password SALT_ROUNDS)) /\
  healthy (snd (registerUser K username email password w)) /\
  clock (snd (registerUser K username email password w)) = clock w /\
  hashed (trace (snd (registerUser K username email password w))) =
    password :: hashed (trace w).
Proof.
  intros H Hno.
  destruct (no_match_filter _ _ _ Hno) as (Hf & He & Hu).
  unfold registerUser, bind.
  destruct (executeQuery_healthy_run (checkUserSql username email) w H)
    as (w1 & E1 & Hd1 & Hh1 & Hc1 & Hs1 & Ht1).
  rewrite E1. unfold statement_result, statement_db in *. simpl in *.
  rewrite Hf. simpl. unfold bcrypt_hash.
  set (h := hash_with_salt K (salts w1) password SALT_ROUNDS).
  set (w2 := emit (EvHash password) (set_salts (S (salts w1)) w1)).
  assert (Hh2 : healthy w2) by exact Hh1.
  destruct (executeQuery_healthy_run (insertUserSql username email h) w2 Hh2)
    as (w3 & E3 & Hd3 & Hh3 & Hc3 & Hs3 & Ht3).
  rewrite E3. unfold statement_result, statement_db in *. simpl in *.
  unfold user_insert_rejected in *. rewrite Hd1 in *. rewrite He in *. simpl.
  destruct (executeQuery_healthy_run (getUserSql username) w3 Hh3)
    as (w4 & E4 & Hd4 & Hh4 & Hc4 & Hs4 & Ht4).
  rewrite E4. unfold statement_result, statement_db in *. simpl in *.
  rewrite Hd3. simpl. rewrite filter_app, Hu. simpl.
  rewrite String.eqb_refl. simpl.
  rewrite Hd4, Hd3, Hc4, Hc3, Ht4, Ht3. simpl.
  unfold with_user, new_user_row, h. rewrite Hc1, Hs1, Ht1.
  auto.
Qed.

Lemma registerUser_Ok_fresh username email password w r :
  healthy w ->
  fst (registerUser K username email password w) = Ok r ->
  forall u, In u (HMS_USERS (db w)) ->
            U.USERNAME u <> username /\ U.EMAIL u <> email.
Proof.
  intros H Hr u Hin.
  destruct (find (matches_user username email) (HMS_USERS (db w)))
    as [existing|] eqn:Ef.
  - rewrite (registerUser_existing K _ _ _ _ _ H Ef) in Hr. discriminate.
  - pose proof (find_none _ _ Ef u Hin) as Hm. unfold matches_user in Hm.
    apply orb_false_elim in Hm as [Hu He].
    apply String.eqb_neq in Hu, He. auto.
Qed.

(** X1. With no driver fault pending, register succeeds exactly when no
    stored row carries the username or the email.  It then adds one user
    row behind the others (next id, the bcrypt hash of the password at
    SALT_ROUNDS, both timestamps now), hashes the password once, leaves
    the token table alone and returns the id, username, email and creation
    time of that row. *)
Theorem register_succeeds_iff_fresh :
  forall username email password w,
    healthy w ->
    ((exists r, fst (registerUser K username email password w) = Ok r) <->
     (forall r, In r (HMS_USERS (db w)) ->
                U.USERNAME r <> username /\ U.EMAIL r <> email)) /\
    ((forall r, In r (HMS_USERS (db w)) ->
                U.USERNAME r <> username /\ U.EMAIL r <> email) ->
     fst (registerUser K username email password w) =
       Ok {| Registered.id := AUTO_INCREMENT (db w);
             Registered.username := username;
             Registered.email := email;
             Registered.createdAt := clock w |} /\
     HMS_USERS (db (snd (registerUser K username email password w))) =
       HMS_USERS (db w) ++
         [ {| U.ID := AUTO_INCREMENT (db w); U.USERNAME := username;
              U.EMAIL := email;
              U.PASSWORD_HASH := hash_with_salt K (salts w) password 10;
              U.CREATED_AT := clock w; U.UPDATED_AT := clock w |} ] /\
     HMS_REFRESH_TOKENS (db (snd (registerUser K username email password w))) =
       HMS_REFRESH_TOKENS (db w) /\
     hashed (trace (snd (registerUser K username email password w))) =
       password :: hashed (trace w)).
Proof.
  intros username email password w H. split.
  - split.
    + intros [r Hr]. exact (registerUser_Ok_fresh _ _ _ _ r H Hr).
    + intros Hno. destruct (registerUser_fresh username email password w H Hno)
        as (Hr & _). eauto.
  - intros Hno. destruct (registerUser_fresh username email password w H Hno)
      as (Hr & Hd & _ & _ & Ht).
    split; [exact Hr|]. rewrite Hd. simpl. auto.
Qed.

Lemma registerUser_Throw username email password w e w1 :
  registerUser K username email password w = (Throw e, w1) ->
  (db w1 = db w /\ e <> CreationFailed) \/
  (exists code h now,
     e = DriverError code /\
     user_insert_rejected (db w) username email = false /\
     db w1 = with_user (db w)
               {| U.ID := AUTO_INCREMENT (db w); U.USERNAME := username;
                  U.EMAIL := email; U.PASSWORD_HASH := h;
                  U.CREATED_AT := now; U.UPDATED_AT := now |}).
Proof.
  unfold registerUser. intros H.
  apply bind_Throw in H as [H | (rows & w2 & E1 & H)].
  { apply executeQuery_Throw in H as ((code & ->) & Hd & _).
    left. split; [exact Hd | discriminate]. }
  apply executeQuery_Ok in E1. destruct E1 as (E1 & Hc & _).
  simpl in E1. injection E1 as _ Hd.
  apply bind_Throw in H as [H | ([] & w3 & Hcheck & H)].
  { left. destruct rows as [|existing rest]; [discriminate|].
    destruct (U.USERNAME existing =? username)%string;
      [|destruct (U.EMAIL existing =? email)%string];
      try discriminate;
      unfold throw in H; injection H as <- <-; split; auto; discriminate. }
  assert (Hw3 : w3 = w2).
  { destruct rows as [|existing rest]; [injection Hcheck as <-; reflexivity|].
    destruct (U.USERNAME existing =? username)%string;
      [|destruct (U.EMAIL existing =? email)%string];
      try discriminate. injection Hcheck as <-; reflexivity. }
  subst w3.
  apply bind_Throw in H as [H | (h & w4 & Eh & H)]; [discriminate|].
  unfold bcrypt_hash in Eh. injection Eh as <- <-.
  apply bind_Throw in H as [H | ([] & w5 & E2 & H)].
  { apply executeQuery_Throw in H as ((code & ->) & Hd5 & _).
    left. simpl in Hd5. split; [congruence | discriminate]. }
  apply executeQuery_Ok in E2. destruct E2 as (E2 & Hc5 & _). simpl in E2.
  rewrite <- Hd in E2.
  destruct (user_insert_rejected (db w) username email) eqn:Erej; [discriminate|].
  injection E2 as E2.
  apply bind_Throw in H as [H | (users & w6 & E3 & H)].
  { apply executeQuery_Throw in H as ((code & ->) & Hd6 & _).
    right. exists code. eexists. eexists. split; [reflexivity|].
    split; [reflexivity|]. rewrite Hd6, <- E2. reflexivity. }
  exfalso.
  apply executeQuery_Ok in E3. destruct E3 as (E3 & _). simpl in E3.
  injection E3 as E3 _. rewrite <- E2 in E3. simpl in E3.
  rewrite filter_app in E3. simpl in E3. rewrite String.eqb_refl in E3.
  destruct users; [|discriminate].
  apply (f_equal (@List.length U.row)) in E3. rewrite length_app in E3.
  simpl in E3. lia.
Qed.

(** X2. The error CreationFailed is never thrown, whatever the driver
    does: once the INSERT has gone through, the re-fetch by username either
    faults in the driver or finds a row. *)
Theorem register_never_creation_failed :
  forall username email password w,
    fst (registerUser K username email password w) <> Throw CreationFailed.
Proof.
  intros username email password w Hf.
  destruct (registerUser K username email password w) as [r w1] eqn:E.
  simpl in Hf. subst r.
  apply registerUser_Throw in E as [[_ Hne] | (code & h & now & He & _)].
  - apply Hne. reflexivity.
  - discriminate.
Qed.

(** X3. Register is not all-or-nothing.  When it throws, either the
    database is as it was, or the user row has been inserted and the error
    is the driver's, thrown by the re-fetch; in the second case the same
    registration tried again on a working store reports
    DuplicateUsername. *)
Theorem register_may_insert_then_throw :
  forall username email password w e w1,
    registerUser K username email password w = (Throw e, w1) ->
    db w1 = db w \/
    ((exists code, e = DriverError code) /\
     (exists row,
        HMS_USERS (db w1) = HMS_USERS (db w) ++ [row] /\
        U.USERNAME row = username /\ U.EMAIL row = email) /\
     HMS_REFRESH_TOKENS (db w1) = HMS_REFRESH_TOKENS (db w) /\
     forall password' w',
       db w' = db w1 -> healthy w' ->
       fst (registerUser K username email password' w') = Throw DuplicateUsername).
Proof.
  intros username email password w e w1 H.
  apply registerUser_Throw in H as [[Hd _] | (code & h & now & He & Hrej & Hd)].
  - left. exact Hd.
  - right. split; [eauto|]. split; [|split].
    + eexists. rewrite Hd. simpl. split; [reflexivity|]. simpl. auto.
    + rewrite Hd. reflexivity.
    + intros password' w' Hdb Hh.
      set (row := {| U.ID := AUTO_INCREMENT (db w); U.USERNAME := username;
                     U.EMAIL := email; U.PASSWORD_HASH := h;
                     U.CREATED_AT := now; U.UPDATED_AT := now |}) in *.
      assert (Hin : In row (HMS_USERS (db w'))).
      { rewrite Hdb, Hd. simpl. apply in_or_app. right. left. reflexivity. }
      destruct (find_exists (matches_user username email) _ row Hin) as [x Hx].
      { unfold matches_user. simpl. rewrite String.eqb_refl. reflexivity. }
      rewrite (registerUser_existing K _ _ _ _ _ Hh Hx).
      assert (Hux : x = row).
      { pose proof (existsb_false _ _ Hrej) as Hold.
        apply find_some in Hx as [Hinx Hm].
        rewrite Hdb, Hd in Hinx. simpl in Hinx.
        apply in_app_or in Hinx as [Hinx | [<- | []]]; [|reflexivity].
        rewrite (Hold x Hinx) in Hm. discriminate. }
      subst x. simpl. rewrite String.eqb_refl. reflexivity.
Qed.

End Registration.

(** ** Login and lookup by id *)

Section Login.

Context (K : Primitives).

Lemma loginUser_Throw username password w e w1 :
  loginUser K username password w = (Throw e, w1) -> db w1 = db w.
Proof.
  unfold loginUser. intros H.
  apply bind_Throw in H as [H | (rows & w2 & E1 & H)].
  { apply executeQuery_Throw in H as (_ & Hd & _). exact Hd. }
  apply executeQuery_Ok in E1. destruct E1 as (E1 & _). simpl in E1.
  injection E1 as _ Hd.
  destruct rows as [|user rest].
  { unfold throw in H. injection H as _ <-. congruence. }
  apply bind_Throw in H as [H | (ok & w3 & Ec & H)]; [discriminate|].
  unfold bcrypt_compare in Ec. injection Ec as <- <-.
  destruct (negb (compare_hash K password (U.PASSWORD_HASH user))).
  { unfold throw in H. injection H as _ <-. simpl. congruence. }
  apply bind_Throw in H as [H | (at' & w4 & Ea & H)]; [discriminate|].
  unfold generateAccessToken in Ea. injection Ea as <- <-.
  apply bind_Throw in H as [H | (rt' & w5 & Er & H)]; [discriminate|].
  unfold generateRefreshToken in Er. injection Er as <- <-.
  apply bind_Throw in H as [H | (now & w6 & En & H)]; [discriminate|].
  unfold new_Date in En. injection En as <- <-.
  apply bind_Throw in H as [H | ([] & w7 & _ & H)]; [|discriminate].
  apply executeQuery_Throw in H as (_ & Hd7 & _). simpl in Hd7. congruence.
Qed.

Lemma loginUser_accepts username password w user :
  healthy w ->
  find (matches_user username username) (HMS_USERS (db w)) = Some user ->
  compare_hash K password (U.PASSWORD_HASH user) = true ->
  (forall rt, In rt (HMS_REFRESH_TOKENS (db w)) ->
     RT.TOKEN rt <>
       sign_refresh K (clock w) {| RefreshClaims.userId := U.ID user |}) ->
  fst (loginUser K username password w) =
    Ok {| Session.user := identity user;
          Session.accessToken :=
            sign_access K (clock w)
              {| AccessClaims.userId := U.ID user;
                 AccessClaims.username := U.USERNAME user;
                 AccessClaims.email := U.EMAIL user |};
          Session.refreshToken :=
            sign_refresh K (clock w) {| RefreshClaims.userId := U.ID user |} |}.
Proof.
  intros H Hf Hcmp Hfresh. unfold loginUser, bind.
  destruct (executeQuery_healthy_run (loginGetUserSql username) w H)
    as (w1 & E1 & Hd1 & Hh1 & Hc1 & _).
  rewrite E1. unfold statement_result, statement_db in *. simpl in *.
  destruct (filter_head_find _ _ _ Hf) as [rest ->]. simpl.
  unfold bcrypt_compare. simpl. rewrite Hcmp. simpl.
  unfold generateAccessToken, generateRefreshToken, new_Date. simpl.
  match goal with
  | |- context [executeQuery ?sql ?w'] =>
      assert (Hh2 : healthy w') by exact Hh1;
      destruct (executeQuery_healthy_run sql w' Hh2) as (w3 & E3 & _);
      rewrite E3
  end.
  unfold statement_result. simpl. rewrite Hd1, Hc1.
  assert (Hrej : token_insert_rejected (db w) (U.ID user)
            (sign_refresh K (clock w) {| RefreshClaims.userId := U.ID user |}) = false).
  { unfold token_insert_rejected. apply orb_false_iff. split.
    - destruct (existsb _ (HMS_REFRESH_TOKENS (db w))) eqn:E; [|reflexivity].
      apply existsb_exists in E as (rt & Hin & Heq).
      apply String.eqb_eq in Heq. destruct (Hfresh rt Hin Heq).
    - apply negb_false_iff. apply existsb_exists. exists user. split.
      + apply find_some in Hf. tauto.
      + apply Z.eqb_refl. }
  rewrite Hrej. reflexivity.
Qed.

(** X4. A failed login writes nothing and has one of two causes: whatever
    the driver does, when loginUser throws the database is as it was, and
    the error is InvalidCredentials or the driver's own. *)
Theorem login_failure_writes_nothing :
  forall username password w e w1,
    loginUser K username password w = (Throw e, w1) ->
    db w1 = db w /\
    (e = InvalidCredentials \/ exists code, e = DriverError code).
Proof.
  intros username password w e w1 H.
  split; [exact (loginUser_Throw _ _ _ _ _ H)|].
  unfold loginUser in H.
  apply bind_Throw in H as [H | (rows & w2 & _ & H)].
  { apply executeQuery_Throw in H as (He & _). right. exact He. }
  destruct rows as [|user rest].
  { unfold throw in H. injection H as <- _. left. reflexivity. }
  apply bind_Throw in H as [H | (ok & w3 & _ & H)]; [discriminate|].
  destruct (negb ok).
  { unfold throw in H. injection H as <- _. left. reflexivity. }
  apply bind_Throw in H as [H | (at' & w4 & _ & H)]; [discriminate|].
  apply bind_Throw in H as [H | (rt' & w5 & _ & H)]; [discriminate|].
  apply bind_Throw in H as [H | (now & w6 & _ & H)]; [discriminate|].
  apply bind_Throw in H as [H | ([] & w7 & _ & H)]; [|discriminate].
  apply executeQuery_Throw in H as (He & _). right. exact He.
Qed.

(** X5. Register, then log in.  After a successful registration the new
    user can log in with the password, by username or by email, provided
    bcrypt accepts the hash it made, no earlier row carries the identifier
    as its username or email, and the token signed for the login is not
    stored yet.  The login reports the id, username and email that
    register reported. *)
Theorem register_then_login :
  forall username email password w r w1,
    healthy w ->
    registerUser K username email password w = (Ok r, w1) ->
    compare_hash K password (hash_with_salt K (salts w) password 10) = true ->
    forall identifier w',
      identifier = username \/ identifier = email ->
      (forall u, In u (HMS_USERS (db w)) ->
                 U.USERNAME u <> identifier /\ U.EMAIL u <> identifier) ->
      db w' = db w1 -> healthy w' ->
      (forall rt, In rt (HMS_REFRESH_TOKENS (db w)) ->
         RT.TOKEN rt <>
           sign_refresh K (clock w') {| RefreshClaims.userId := Registered.id r |}) ->
      exists s,
        fst (loginUser K identifier password w') = Ok s /\
        User.id (Session.user s) = Registered.id r /\
        User.username (Session.user s) = Registered.username r /\
        User.email (Session.user s) = Registered.email r /\
        User.username (Session.user s) = username /\
        User.email (Session.user s) = email.
Proof.
  intros username email password w r w1 H Hreg Hcmp identifier w' Hid Hold Hdb Hh' Hfresh.
  assert (Hno : forall u, In u (HMS_USERS (db w)) ->
                  U.USERNAME u <> username /\ U.EMAIL u <> email).
  { apply (registerUser_Ok_fresh K username email password w r H).
    rewrite Hreg. reflexivity. }
  destruct (registerUser_fresh K username email password w H Hno)
    as (Hr & Hd & _).
  rewrite Hreg in Hr, Hd. simpl in Hr, Hd. injection Hr as ->.
  set (row := new_user_row w username email
                (hash_with_salt K (salts w) password SALT_ROUNDS)) in *.
  assert (Hf : find (matches_user identifier identifier) (HMS_USERS (db w')) = Some row).
  { rewrite Hdb, Hd. simpl.
    destruct (no_match_filter _ _ _ Hold) as (Hnil & _).
    assert (Hfind : find (matches_user identifier identifier) (HMS_USERS (db w)) = None).
    { destruct (find _ (HMS_USERS (db w))) as [x|] eqn:E; [|reflexivity].
      destruct (filter_head_find _ _ _ E) as [rest Hrest]. congruence. }
    clear - Hfind Hid. induction (HMS_USERS (db w)) as [|a l IH]; simpl in *.
    - unfold matches_user. simpl.
      destruct Hid as [->| ->]; rewrite String.eqb_refl;
        [reflexivity | rewrite orb_true_r; reflexivity].
    - destruct (matches_user identifier identifier a); [discriminate | auto]. }
  rewrite (loginUser_accepts identifier password w' row Hh' Hf).
  - eexists. split; [reflexivity|]. simpl. auto.
  - exact Hcmp.
  - intros rt Hin. rewrite Hdb, Hd in Hin. simpl in Hin. apply Hfresh. exact Hin.
Qed.

Lemma getUserById_healthy userId w :
  healthy w ->
  fst (getUserById userId w) =
    match filter (fun r => U.ID r =? userId) (HMS_USERS (db w)) with
    | [] => Throw UserNotFound
    | user :: _ => Ok (profile user)
    end.
Proof.
  intros H. unfold getUserById, bind.
  destruct (executeQuery_healthy_run (getUserByIdSql userId) w H) as (w1 & E & _).
  rewrite E. unfold statement_result. simpl.
  destruct (filter (fun r => U.ID r =? userId) (HMS_USERS (db w))); reflexivity.
Qed.

Lemma getUserById_db userId w : db (snd (getUserById userId w)) = db w.
Proof.
  unfold getUserById, bind.
  destruct (executeQuery_run (getUserByIdSql userId) w) as (_ & _ & _ & Hd).
  assert (Hdb : db (snd (executeQuery (getUserByIdSql userId) w)) = db w)
    by (destruct Hd as [[_ Hd]|[_ Hd]]; exact Hd).
  destruct (executeQuery (getUserByIdSql userId) w) as [[[|u rest]|e] w1];
    simpl in *; assumption.
Qed.

(** X6. getUserById never writes.  With no driver fault pending it fails
    with UserNotFound exactly when no row has the id; and where ids are
    unique it returns the id, username, email and both timestamps of the
    row that has it. *)
Theorem get_user_by_id_finds_the_row :
  forall userId w,
    db (snd (getUserById userId w)) = db w /\
    (healthy w ->
     (fst (getUserById userId w) = Throw UserNotFound <->
      forall r, In r (HMS_USERS (db w)) -> U.ID r <> userId) /\
     (forall user,
        NoDup (map U.ID (HMS_USERS (db w))) ->
        In user (HMS_USERS (db w)) -> U.ID user = userId ->
        fst (getUserById userId w) =
          Ok {| Profile.id := U.ID user; Profile.username := U.USERNAME user;
                Profile.email := U.EMAIL user;
                Profile.createdAt := U.CREATED_AT user;
                Profile.updatedAt := U.UPDATED_AT user |})).
Proof.
  intros userId w. split; [apply getUserById_db|].
  intros H. rewrite (getUserById_healthy userId w H). split; [split|].
  - intros Hnf r Hin Hid.
    destruct (filter (fun r => U.ID r =? userId) (HMS_USERS (db w))) eqn:Ef;
      [|discriminate].
    assert (Hr : In r (filter (fun r => U.ID r =? userId) (HMS_USERS (db w)))).
    { apply filter_In. split; [exact Hin|]. apply Z.eqb_eq. exact Hid. }
    rewrite Ef in Hr. destruct Hr.
  - intros Hno. rewrite filter_nil; [reflexivity|].
    intros r Hin. apply Z.eqb_neq. apply Hno. exact Hin.
  - intros user Hnd Hin Hid.
    rewrite (filter_unique U.ID (fun r => U.ID r =? userId) _ user); auto.
    + apply Z.eqb_eq. exact Hid.
    + intros y _ Hy. apply Z.eqb_eq in Hy. congruence.
Qed.

(** X7. Register, then look up by the id register returned: on a store
    whose ids are all below the counter, getUserById reports the username
    and email that were registered, with creation and update time both the
    time of registration. *)
Theorem register_then_get_user_by_id :
  forall username email password w r w1 w',
    healthy w ->
    Forall (fun u => U.ID u < AUTO_INCREMENT (db w)) (HMS_USERS (db w)) ->
    registerUser K username email password w = (Ok r, w1) ->
    db w' = db w1 -> healthy w' ->
    fst (getUserById (Registered.id r) w') =
      Ok {| Profile.id := Registered.id r;
            Profile.username := username;
            Profile.email := email;
            Profile.createdAt := clock w;
            Profile.updatedAt := clock w |} /\
    Registered.createdAt r = clock w.
Proof.
  intros username email password w r w1 w' H Hids Hreg Hdb Hh'.
  assert (Hno : forall u, In u (HMS_USERS (db w)) ->
                  U.USERNAME u <> username /\ U.EMAIL u <> email).
  { apply (registerUser_Ok_fresh K username email password w r H).
    rewrite Hreg. reflexivity. }
  destruct (registerUser_fresh K username email password w H Hno)
    as (Hr & Hd & _).
  rewrite Hreg in Hr, Hd. simpl in Hr, Hd. injection Hr as ->. simpl.
  split; [|reflexivity].
  rewrite (getUserById_healthy _ w' Hh'), Hdb, Hd. simpl.
  rewrite filter_app. rewrite filter_nil.
  - simpl. rewrite Z.eqb_refl. reflexivity.
  - intros u Hin. rewrite Forall_forall in Hids. specialize (Hids u Hin).
    apply Z.eqb_neq. lia.
Qed.

End Login.

(** ** Sessions *)

Section Sessions.

Context (K : Primitives).

(** X8. What a successful refresh hands out.  On a store that satisfies
    the schema, a present token that verifies and has an unrevoked,
    unexpired row is answered with the identity of the row's owner and an
    access token signed now over that owner's id, username and email as
    stored: nothing in the answer comes from the claims inside the
    refresh token. *)
Theorem refresh_signs_stored_identity :
  forall token w rt u,
    healthy w -> db_wf (db w) ->
    token <> "" ->
    verify_refresh K (clock w) token <> None ->
    In rt (HMS_REFRESH_TOKENS (db w)) ->
    RT.TOKEN rt = token -> RT.IS_REVOKED rt = false -> clock w < RT.EXPIRES_AT rt ->
    In u (HMS_USERS (db w)) -> U.ID u = RT.USER_ID rt ->
    fst (refreshAccessToken K (Some token) w) =
      Ok {| Refreshed.accessToken :=
              sign_access K (clock w)
                {| AccessClaims.userId := U.ID u;
                   AccessClaims.username := U.USERNAME u;
                   AccessClaims.email := U.EMAIL u |};
            Refreshed.user :=
              {| User.id := U.ID u; User.username := U.USERNAME u;
                 User.email := U.EMAIL u |} |}.
Proof.
  intros token w rt u H W Hne Hv Hrt Ht Hr He Hu Hid.
  assert (Htr : truthy (Some token) = true).
  { simpl. apply negb_true_iff. apply String.eqb_neq. exact Hne. }
  rewrite (refreshAccessToken_healthy K (Some token) w H Htr). simpl text.
  destruct (verify_refresh K (clock w) token); [|contradiction].
  rewrite (findActive_unique (clock w) token (db w) rt u); auto.
  apply active_spec. auto.
Qed.

Lemma logoutUser_db t w :
  db (snd (logoutUser t w)) = db w \/
  (truthy t = true /\
   db (snd (logoutUser t w)) =
     {| HMS_USERS := HMS_USERS (db w);
        HMS_REFRESH_TOKENS := map (revoke_row (text t)) (HMS_REFRESH_TOKENS (db w));
        AUTO_INCREMENT := AUTO_INCREMENT (db w) |}).
Proof.
  unfold logoutUser. destruct (truthy t); simpl; [|left; reflexivity].
  destruct (executeQuery_run (revokeSql (text t)) w) as (_ & _ & _ & [[_ Hd]|[_ Hd]]).
  - right. split; [reflexivity|]. rewrite Hd. reflexivity.
  - left. exact Hd.
Qed.

Lemma revoke_row_other token rt :
  RT.TOKEN rt <> token \/ RT.IS_REVOKED rt = true -> revoke_row token rt = rt.
Proof.
  intros H. unfold revoke_row.
  destruct ((RT.TOKEN rt =? token)%string && negb (RT.IS_REVOKED rt)) eqn:E;
    [|reflexivity].
  apply andb_true_iff in E as [Et Er].
  apply String.eqb_eq in Et. apply negb_true_iff in Er.
  destruct H; congruence.
Qed.

Lemma revoke_row_twice token rt :
  revoke_row token (revoke_row token rt) = revoke_row token rt.
Proof.
  apply revoke_row_other.
  destruct (String.eqb_spec (RT.TOKEN rt) token) as [Ht|Ht].
  - right. apply revoke_row_revoked. exact Ht.
  - left. destruct (ages_revoke token rt) as (_ & -> & _). exact Ht.
Qed.

Lemma usable_map_revoke now token other d :
  other <> token ->
  usable now token d ->
  usable now token
    {| HMS_USERS := HMS_USERS d;
       HMS_REFRESH_TOKENS := map (revoke_row other) (HMS_REFRESH_TOKENS d);
       AUTO_INCREMENT := AUTO_INCREMENT d |}.
Proof.
  intros Hne (rt & Hin & Ht & Hr & He). exists rt. simpl.
  split; [|auto].
  apply in_map_iff. exists rt. split; [|exact Hin].
  apply revoke_row_other. left. congruence.
Qed.

(** X9. Logout touches the rows of its own token and nothing else,
    whatever the driver does: the user table is unchanged, the token table
    keeps its length, every row of another token and every row already
    revoked stays exactly as it was, so any other token that was usable
    still is.  And with no driver fault pending a second logout of the
    same token changes nothing more. *)
Theorem logout_touches_only_its_token :
  forall t w,
    HMS_USERS (db (snd (logoutUser t w))) = HMS_USERS (db w) /\
    List.length (HMS_REFRESH_TOKENS (db (snd (logoutUser t w)))) =
      List.length (HMS_REFRESH_TOKENS (db w)) /\
    (forall i rt,
       nth_error (HMS_REFRESH_TOKENS (db w)) i = Some rt ->
       RT.TOKEN rt <> text t \/ RT.IS_REVOKED rt = true ->
       nth_error (HMS_REFRESH_TOKENS (db (snd (logoutUser t w)))) i = Some rt) /\
    (forall now token,
       token <> text t ->
       usable now token (db w) ->
       usable now token (db (snd (logoutUser t w)))) /\
    (healthy w ->
     db (snd (logoutUser t (snd (logoutUser t w)))) = db (snd (logoutUser t w))).
Proof.
  intros t w.
  assert (Hidem : healthy w ->
            db (snd (logoutUser t (snd (logoutUser t w)))) = db (snd (logoutUser t w))).
  { intros H. destruct (logoutUser_healthy t w H) as (_ & Hh & Hd1).
    destruct (logoutUser_healthy t _ Hh) as (_ & _ & Hd2).
    rewrite Hd2. destruct (truthy t); [|reflexivity].
    rewrite Hd1. simpl. rewrite map_map.
    f_equal. apply map_ext. intros rt. apply revoke_row_twice. }
  destruct (logoutUser_db t w) as [Hd | [Ht Hd]].
  - split; [rewrite Hd; reflexivity|]. split; [rewrite Hd; reflexivity|].
    split; [intros i rt Hi _; rewrite Hd; exact Hi|].
    split; [intros now token _ Hu; rewrite Hd; exact Hu | exact Hidem].
  - split; [rewrite Hd; reflexivity|].
    split; [rewrite Hd; simpl; apply length_map|].
    split; [|split; [|exact Hidem]].
    + intros i rt Hi Hother. rewrite Hd. simpl.
      rewrite nth_error_map, Hi. simpl. f_equal.
      apply revoke_row_other. exact Hother.
    + intros now token Hne Hu. rewrite Hd.
      apply usable_map_revoke; auto.
Qed.

Lemma executeQuery_tokens {A} (sql : Statement A) w :
  (forall now d rows d',
     run_statement sql now d = inr (rows, d') ->
     HMS_REFRESH_TOKENS d' = HMS_REFRESH_TOKENS d) ->
  HMS_REFRESH_TOKENS (db (snd (executeQuery sql w))) = HMS_REFRESH_TOKENS (db w).
Proof.
  intros Hkeep.
  destruct (executeQuery_run sql w) as (_ & _ & _ & [[_ Hd]|[_ Hd]]); rewrite Hd;
    [|reflexivity].
  unfold statement_db.
  destruct (run_statement sql (clock w) (db w)) as [code|[rows d']] eqn:E;
    [reflexivity|].
  eapply Hkeep. exact E.
Qed.

Ltac tokens_query :=
  match goal with
  | |- context [executeQuery ?sql ?w] =>
      let H := fresh "Hq" in
      assert (H : HMS_REFRESH_TOKENS (db (snd (executeQuery sql w))) =
                  HMS_REFRESH_TOKENS (db w));
      [ apply executeQuery_tokens; simpl; intros now d rows d' Hrun;
        try (destruct (user_insert_rejected d _ _); [discriminate|]);
        injection Hrun as _ <-; reflexivity
      | destruct (executeQuery sql w) as [[?|?] ?]; simpl in H |- * ]
  end.

Lemma registerUser_tokens username email password w :
  HMS_REFRESH_TOKENS (db (snd (registerUser K username email password w))) =
    HMS_REFRESH_TOKENS (db w).
Proof.
  unfold registerUser, bind.
  tokens_query; [|assumption].
  assert (Hrest : forall wx,
    HMS_REFRESH_TOKENS (db wx) = HMS_REFRESH_TOKENS (db w) ->
    HMS_REFRESH_TOKENS (db (snd (
      (passwordHash <- bcrypt_hash K password SALT_ROUNDS ;;
       executeQuery (insertUserSql username email passwordHash) ;;
       users <- executeQuery (getUserSql username) ;;
       match users with
       | [] => throw CreationFailed
       | user :: _ =>
           ret {| Registered.id := U.ID user;
                  Registered.username := U.USERNAME user;
                  Registered.email := U.EMAIL user;
                  Registered.createdAt := U.CREATED_AT user |}
       end) wx))) = HMS_REFRESH_TOKENS (db w)).
  { intros wx Hx. unfold bind, bcrypt_hash. simpl.
    tokens_query; [|simpl in *; congruence].
    tokens_query; [|simpl in *; congruence].
    match goal with
    | |- context [match ?x with [] => _ | _ :: _ => _ end] => destruct x
    end; simpl in *; congruence. }
  destruct a as [|existing rest]; simpl.
  - apply Hrest. assumption.
  - destruct (U.USERNAME existing =? username)%string; simpl; [assumption|].
    destruct (U.EMAIL existing =? email)%string; simpl; [assumption|].
    apply Hrest. assumption.
Qed.

Lemma usable_app now token d row :
  usable now token d ->
  forall d',
    HMS_REFRESH_TOKENS d' = HMS_REFRESH_TOKENS d ++ [row] ->
    usable now token d'.
Proof.
  intros (rt & Hin & H) d' Hd'. exists rt. rewrite Hd'.
  split; [apply in_or_app; left; exact Hin | exact H].
Qed.

Lemma usable_same_tokens now token d d' :
  HMS_REFRESH_TOKENS d' = HMS_REFRESH_TOKENS d ->
  usable now token d -> usable now token d'.
Proof. unfold usable. intros ->. auto. Qed.

(** X10. Only its own logout ends a session early.  If a token is usable
    at some instant, it is still usable at that instant after any request
    the service answers, under whatever driver faults, unless the request
    is a logout of that very token: register, login, refresh, lookup by
    id and the logout of any other token leave it usable. *)
Theorem session_survives_other_requests :
  forall q w now token,
    usable now token (db w) ->
    (forall t, q = Logout t -> truthy t = true -> text t <> token) ->
    usable now token (db (handle K q w)).
Proof.
  intros q w now token Hu Hq. destruct q; simpl.
  - apply (usable_same_tokens now token (db w)); [|exact Hu].
    apply registerUser_tokens.
  - destruct (loginUser K username password w) as [[s|e] w1] eqn:E; simpl.
    + destruct (loginUser_Ok K _ _ _ _ _ E) as (user & rest & _ & _ & _ & Htok & _).
      eapply usable_app; [exact Hu | exact Htok].
    + rewrite (loginUser_Throw K _ _ _ _ _ E). exact Hu.
  - rewrite refreshAccessToken_db. exact Hu.
  - destruct (logoutUser_db refreshToken w) as [Hd | [Ht Hd]]; rewrite Hd.
    + exact Hu.
    + apply usable_map_revoke; [|exact Hu].
      apply (Hq refreshToken eq_refl Ht).
  - rewrite (getUserById_db userId w). exact Hu.
Qed.

(** X11. User rows are written once.  Through any sequence of requests
    and whatever the driver does, every stored user row stays at its
    position exactly as it was stored (id, username, email, password hash
    and both timestamps): the service has no UPDATE and no DELETE on
    HMS_USERS. *)
Theorem user_rows_never_change :
  forall w w',
    steps K w w' ->
    forall i u,
      nth_error (HMS_USERS (db w)) i = Some u ->
      nth_error (HMS_USERS (db w')) i = Some u.
Proof.
  intros w w' H i u Hi.
  destruct (steps_db K w w' H) as (_ & _ & [added Hext] & _).
  rewrite Hext. rewrite nth_error_app1; [exact Hi|].
  apply nth_error_Some. congruence.
Qed.

(** X12. The constraints of the schema hold in every state the service
    reaches: starting from a database that satisfies them (the empty one
    does), after any sequence of requests under any driver faults the ids,
    usernames, emails and tokens are still unique, every id is below the
    counter and every token row is owned by a stored user. *)
Theorem reachable_states_keep_the_schema :
  forall w w',
    steps K w w' ->
    (db_wf (db w) -> db_wf (db w')) /\
    (db w = empty_db -> db_wf (db w')).
Proof.
  intros w w' H.
  destruct (steps_db K w w' H) as (_ & _ & _ & Hwf).
  split; [exact Hwf|].
  intros He. apply Hwf. rewrite He. exact empty_db_wf.
Qed.

End Sessions.

(** ** The service and its connections *)

Lemma acquired_app (t1 t2 : list Event) :
  acquired (t1 ++ t2) = acquired t1 ++ acquired t2.
Proof.
  induction t1 as [|e t1 IH]; simpl; [reflexivity|].
  destruct e; simpl; rewrite IH; reflexivity.
Qed.

Lemma released_app (t1 t2 : list Event) :
  released (t1 ++ t2) = released t1 ++ released t2.
Proof.
  induction t1 as [|e t1 IH]; simpl; [reflexivity|].
  destruct e; simpl; rewrite IH; reflexivity.
Qed.

Lemma quiet_refl w : quiet w w.
Proof. unfold quiet. repeat split; auto. exists []. auto. Qed.

Lemma balanced_refl w : balanced w w.
Proof. intros W. split; [exact W|]. split; [reflexivity|]. exists []. auto. Qed.

Lemma balanced_trans w1 w2 w3 : balanced w1 w2 -> balanced w2 w3 -> balanced w1 w3.
Proof.
  intros H12 H23 W.
  destruct (H12 W) as (W2 & L2 & e2 & T2 & B2).
  destruct (H23 W2) as (W3 & L3 & e3 & T3 & B3).
  split; [exact W3|]. split; [congruence|].
  exists (e3 ++ e2). split.
  - rewrite T3, T2. apply app_assoc.
  - rewrite acquired_app, released_app. congruence.
Qed.

Lemma quiet_balanced w w' : quiet w w' -> balanced w w'.
Proof.
  intros (_ & _ & _ & Hl & Hn & _ & events & Ht & Ha & Hr) W.
  split; [unfold pool_wf in *; rewrite Hl, Hn; exact W|].
  split; [exact Hl|]. exists events. split; [exact Ht | congruence].
Qed.

Lemma executeQuery_next_conn {A} (sql : Statement A) (w : World) :
  (next_conn w <= next_conn (snd (executeQuery sql w)))%nat.
Proof.
  destruct w as [d ck p l n sc sa tr]; simpl.
  unfold_connection.
  destruct p; simpl;
    repeat (match goal with
            | |- context [match ?sc with [] => _ | _ => _ end] =>
                destruct sc as [|[|?] ?]; simpl
            end);
    destruct (run_statement sql ck d) as [?|[? ?]]; simpl; lia.
Qed.

Lemma executeQuery_is_balanced {A} (sql : Statement A) (w : World) :
  balanced w (snd (executeQuery sql w)).
Proof.
  intros W.
  destruct (executeQuery_balanced sql w W) as (Hl & events & Ht & Hb & _).
  split; [|split; [exact Hl | eauto]].
  unfold pool_wf in *. rewrite Hl.
  pose proof (executeQuery_next_conn sql w) as Hn.
  eapply Forall_impl; [|exact W]. simpl. intros c Hc. lia.
Qed.

Lemma steady_refl w : steady w w.
Proof. split; auto. Qed.

Lemma steady_trans w1 w2 w3 : steady w1 w2 -> steady w2 w3 -> steady w1 w3.
Proof. intros [C1 H1] [C2 H2]. split; [congruence | auto]. Qed.

Lemma quiet_steady w w' : quiet w w' -> steady w w'.
Proof.
  intros (_ & Hc & _ & _ & _ & Hs & _). split; [exact Hc|].
  unfold healthy. congruence.
Qed.

Lemma executeQuery_is_steady {A} (sql : Statement A) (w : World) :
  steady w (snd (executeQuery sql w)).
Proof.
  split.
  - destruct (executeQuery_run sql w) as (Hc & _). exact Hc.
  - intros H. destruct (executeQuery_healthy sql w H) as (_ & _ & Hh). exact Hh.
Qed.

Section Service_frame.

Context (K : Primitives).

Variable R : World -> World -> Prop.
Hypothesis R_refl : forall w, R w w.
Hypothesis R_trans : forall w1 w2 w3, R w1 w2 -> R w2 w3 -> R w1 w3.
Hypothesis R_quiet : forall w w', quiet w w' -> R w w'.
Hypothesis R_query : forall A (sql : Statement A), respects R (executeQuery sql).

Ltac quiet_world :=
  intros ?w; apply R_quiet; unfold quiet; simpl;
  repeat (split; [reflexivity|]);
  first [ exists []; repeat split; reflexivity
        | eexists [_]; repeat split; reflexivity ].

Lemma bcrypt_hash_frame data rounds : respects R (bcrypt_hash K data rounds).
Proof. quiet_world. Qed.

Lemma bcrypt_compare_frame data encrypted :
  respects R (bcrypt_compare K data encrypted).
Proof. quiet_world. Qed.

Lemma generateAccessToken_frame payload : respects R (generateAccessToken K payload).
Proof. quiet_world. Qed.

Lemma generateRefreshToken_frame payload :
  respects R (generateRefreshToken K payload).
Proof. quiet_world. Qed.

Lemma new_Date_frame : respects R new_Date.
Proof. quiet_world. Qed.

Lemma verifyRefreshToken_frame token : respects R (verifyRefreshToken K token).
Proof.
  intros w. unfold verifyRefreshToken.
  destruct (verify_refresh K (clock w) token); simpl; apply R_refl.
Qed.

Ltac frame_all :=
  repeat first
    [ apply bcrypt_hash_frame
    | apply bcrypt_compare_frame
    | apply generateAccessToken_frame
    | apply generateRefreshToken_frame
    | apply new_Date_frame
    | apply verifyRefreshToken_frame
    | apply respects_bind; try assumption; intros
    | apply respects_try_catch; try assumption; intros
    | apply respects_ret; assumption
    | apply respects_throw; assumption
    | apply R_query
    | match goal with
      | |- respects _ (if ?b then _ else _) => destruct b
      | |- respects _ (match ?x with _ => _ end) => destruct x
      | |- respects _ (let _ := _ in _) => cbv zeta
      end ].

Lemma registerUser_frame u e p : respects R (registerUser K u e p).
Proof. unfold registerUser. frame_all. Qed.

Lemma loginUser_frame u p : respects R (loginUser K u p).
Proof. unfold loginUser. frame_all. Qed.

Lemma refreshAccessToken_frame t : respects R (refreshAccessToken K t).
Proof. unfold refreshAccessToken. frame_all. Qed.

Lemma logoutUser_frame t : respects R (logoutUser t).
Proof. unfold logoutUser. frame_all. Qed.

Lemma getUserById_frame i : respects R (getUserById i).
Proof. unfold getUserById. frame_all. Qed.

Lemma handle_frame q w : R w (handle K q w).
Proof.
  destruct q; simpl.
  - apply registerUser_frame.
  - apply loginUser_frame.
  - apply refreshAccessToken_frame.
  - apply logoutUser_frame.
  - apply getUserById_frame.
Qed.

End Service_frame.

Section Service_connections.

Context (K : Primitives).

Lemma handle_steady q w : steady w (handle K q w).
Proof.
  apply (handle_frame K steady).
  - apply steady_refl.
  - apply steady_trans.
  - apply quiet_steady.
  - intros A sql w0. apply executeQuery_is_steady.
Qed.

(** X13. No request leaks a connection.  Whatever request the service
    answers and whatever calls the driver faults on, every connection the
    request obtained has been released when it returns or throws: the
    leased connections are the same as before, and among the events of
    the request the connections obtained are the connections released. *)
Theorem requests_leak_no_connection :
  forall q w,
    pool_wf w ->
    pool_wf (handle K q w) /\
    leased (handle K q w) = leased w /\
    exists events,
      trace (handle K q w) = events ++ trace w /\
      acquired events = released events.
Proof.
  intros q w W.
  apply (handle_frame K balanced); auto.
  - apply balanced_refl.
  - apply balanced_trans.
  - apply quiet_balanced.
  - intros A sql w0. apply executeQuery_is_balanced.
Qed.

End Service_connections.

(** ** The pool *)

(** X14. The pool is created on first use and not again.  With a pool in
    place getConnection only asks it for a connection.  Without one it
    creates the pool first and, if that works, keeps it; if creating the
    pool faults, the fault is thrown on, no pool is recorded and nothing
    is leased, so the next call tries again.  A connection it returns is
    new, and is the one now leased on top of the others. *)
Theorem pool_is_created_on_first_use :
  forall w,
    (pool w = true ->
     pool (snd (getConnection w)) = true /\
     (forall c w0, getConnection w = (Ok c, w0) ->
                   trace w0 = EvAcquire c :: trace w) /\
     (forall e w0, getConnection w = (Throw e, w0) -> trace w0 = trace w)) /\
    (pool w = false ->
     (forall c w0, getConnection w = (Ok c, w0) ->
        pool w0 = true /\
        trace w0 = EvAcquire c :: EvConsole :: EvCreatePool :: trace w) /\
     (forall code rest, schedule w = Faults code :: rest ->
        fst (getConnection w) = Throw (DriverError code) /\
        pool (snd (getConnection w)) = false /\
        leased (snd (getConnection w)) = leased w /\
        schedule (snd (getConnection w)) = rest)) /\
    (forall c w0, getConnection w = (Ok c, w0) ->
       c = next_conn w /\ leased w0 = c :: leased w /\
       (pool_wf w -> ~ In c (leased w) /\ pool_wf w0)).
Proof.
  intros w. destruct w as [d ck p l n sc sa tr]. simpl.
  split; [|split].
  - intros ->. unfold_connection.
    destruct sc as [|[|code] sc]; simpl;
      (split; [reflexivity|]); split; intros ? ? [= <- <-]; reflexivity.
  - intros ->. unfold_connection. split.
    + destruct sc as [|[|code] sc]; simpl; try (destruct sc as [|[|code'] sc]; simpl);
        intros ? ? [= <- <-]; split; reflexivity.
    + intros code rest ->. simpl. auto.
  - intros c w0 Hget.
    destruct (getConnection_Ok _ _ _ Hget) as (Hc & Hl & Hn). simpl in *.
    split; [exact Hc|]. split; [exact Hl|].
    intros W. unfold pool_wf in *. simpl in *. split.
    + intros Hin. rewrite Forall_forall in W. specialize (W c Hin). lia.
    + rewrite Hl, Hn. constructor; [lia|].
      eapply Forall_impl; [|exact W]. simpl. intros; lia.
Qed.

(** X15. closePool without a pool does nothing.  With a pool it ends it
    and forgets it, so that the next getConnection creates a pool again;
    but if ending the pool faults, the fault is thrown and the pool is
    still recorded. *)
Theorem close_pool_forgets_the_pool :
  forall w,
    (pool w = false -> closePool w = (Ok tt, w)) /\
    (pool w = true ->
     (forall code rest, schedule w = Faults code :: rest ->
        fst (closePool w) = Throw (DriverError code) /\
        pool (snd (closePool w)) = true) /\
     ((forall code rest, schedule w <> Faults code :: rest) ->
        fst (closePool w) = Ok tt /\
        pool (snd (closePool w)) = false /\
        forall c w0,
          getConnection (snd (closePool w)) = (Ok c, w0) ->
          trace w0 =
            EvAcquire c :: EvConsole :: EvCreatePool :: trace (snd (closePool w)))).
Proof.
  intros w. destruct w as [d ck p l n sc sa tr]. simpl. split.
  - intros ->. reflexivity.
  - intros ->. unfold closePool. simpl. unfold_connection. split.
    + intros code rest ->. simpl. auto.
    + intros Hok.
      destruct sc as [|[|code] sc]; simpl;
        try (exfalso; eapply Hok; reflexivity);
        (split; [reflexivity|]); (split; [reflexivity|]);
        intros c w0;
        repeat (match goal with
                | |- context [match ?sc with [] => _ | _ => _ end] =>
                    destruct sc as [|[|?] ?]; simpl
                end);
        intros [= <- <-]; reflexivity.
Qed.

(** ** Queries and transactions *)

(** X16. A query either returns what the statement yields or throws what
    the driver threw.  When executeQuery returns rows, they are the rows
    of the statement run on the database as it was at the call and at the
    time of the call, and the database is the one the statement left.
    When it throws, the database is untouched and the error is the
    driver's own: the code of a fault the driver was due to raise, or the
    code with which the store rejected the statement. *)
Theorem query_returns_rows_or_rethrows :
  forall {A} (sql : Statement A) (w : World),
    (forall rows w1,
       executeQuery sql w = (Ok rows, w1) ->
       run_statement sql (clock w) (db w) = inr (rows, db w1)) /\
    (forall e w1,
       executeQuery sql w = (Throw e, w1) ->
       db w1 = db w /\
       exists code,
         e = DriverError code /\
         (In (Faults code) (schedule w) \/
          run_statement sql (clock w) (db w) = inl code)).
Proof.
  intros A sql w. split.
  - intros rows w1 H. apply executeQuery_Ok in H. tauto.
  - intros e w1 H. split; [apply executeQuery_Throw in H; tauto|].
    revert H. destruct w as [d ck p l n sc sa tr]. simpl.
    unfold_connection.
    destruct p; simpl;
      repeat (match goal with
              | |- context [match ?sc with [] => _ | _ => _ end] =>
                  destruct sc as [|[|?] ?]; simpl
              end);
      destruct (run_statement sql ck d) as [?|[? ?]]; simpl;
      intros [= <- <-]; eauto 10.
Qed.

(** X17. A failing rollback hides the first error.  When the callback of
    executeTransaction throws and the rollback then faults, the error
    thrown is the rollback's, not the callback's; when the commit faults
    and the rollback goes through, the error thrown is the commit's.  The
    connection is released in both cases. *)
Theorem rollback_fault_replaces_the_error :
  forall {B} (callback : Conn -> M World B) w c w0 w1,
    getConnection w = (Ok c, w0) ->
    connection_beginTransaction c w0 = (Ok tt, w1) ->
    (forall e wc code rest,
       callback c w1 = (Throw e, wc) ->
       schedule wc = Faults code :: rest ->
       fst (executeTransaction callback w) = Throw (DriverError code) /\
       trace (snd (executeTransaction callback w)) =
         EvRelease c :: EvRollback c :: trace wc) /\
    (forall b wc code rest,
       callback c w1 = (Ok b, wc) ->
       schedule wc = Faults code :: rest ->
       (forall code' rest', rest <> Faults code' :: rest') ->
       fst (executeTransaction callback w) = Throw (DriverError code) /\
       trace (snd (executeTransaction callback w)) =
         EvRelease c :: EvRollback c :: EvCommit c :: trace wc).
Proof.
  intros B callback w c w0 w1 Hget Hbegin. split.
  - intros e wc code rest Hcb Hsc.
    unfold_transaction. rewrite Hget. simpl. rewrite Hbegin. simpl.
    rewrite Hcb. simpl.
    destruct wc as [d ck p l n sc sa tr]. simpl in Hsc. subst sc.
    unfold_calls. auto.
  - intros b wc code rest Hcb Hsc Hrest.
    unfold_transaction. rewrite Hget. simpl. rewrite Hbegin. simpl.
    rewrite Hcb. simpl.
    destruct wc as [d ck p l n sc sa tr]. simpl in Hsc. subst sc.
    unfold_calls.
    destruct rest as [|[|code'] rest']; simpl; auto.
    exfalso. eapply Hrest. reflexivity.
Qed.

(** ** From registration to logout *)

Lemma find_snoc {A} (p : A -> bool) (l : list A) (x : A) :
  (forall y, In y l -> p y = false) -> p x = true ->
  find p (l ++ [x]) = Some x.
Proof.
  intros Hl Hx. induction l as [|a l IH]; simpl.
  - rewrite Hx. reflexivity.
  - rewrite (Hl a) by (left; reflexivity). apply IH.
    intros y Hy. apply Hl. right. exact Hy.
Qed.

Section Scenario.

Context (K : Primitives).

(** X18. The whole life of a session.  On a working store that satisfies
    the schema, let a username and an email be free, let bcrypt accept
    the hash it makes of the password, and let the refresh token signed
    for the new user be non-empty, verifiable and not stored yet.  Then
    register returns the new id; login by username returns that user and
    that token; refresh of the token returns the same user; logout
    returns; and refresh of the token now fails with
    InvalidOrExpiredToken. *)
Theorem register_login_refresh_logout :
  forall username email password w,
    healthy w -> db_wf (db w) ->
    (forall r, In r (HMS_USERS (db w)) ->
       U.USERNAME r <> username /\ U.EMAIL r <> email /\ U.EMAIL r <> username) ->
    compare_hash K password (hash_with_salt K (salts w) password 10) = true ->
    let id := AUTO_INCREMENT (db w) in
    let token := sign_refresh K (clock w) {| RefreshClaims.userId := id |} in
    let user := {| User.id := id; User.username := username; User.email := email |} in
    let access :=
      sign_access K (clock w)
        {| AccessClaims.userId := id; AccessClaims.username := username;
           AccessClaims.email := email |} in
    token <> "" ->
    verify_refresh K (clock w) token <> None ->
    (forall rt, In rt (HMS_REFRESH_TOKENS (db w)) -> RT.TOKEN rt <> token) ->
    let w1 := snd (registerUser K username email password w) in
    let w2 := snd (loginUser K username password w1) in
    let w3 := snd (refreshAccessToken K (Some token) w2) in
    let w4 := snd (logoutUser (Some token) w3) in
    fst (registerUser K username email password w) =
      Ok {| Registered.id := id; Registered.username := username;
            Registered.email := email; Registered.createdAt := clock w |} /\
    fst (loginUser K username password w1) =
      Ok {| Session.user := user; Session.accessToken := access;
            Session.refreshToken := token |} /\
    fst (refreshAccessToken K (Some token) w2) =
      Ok {| Refreshed.accessToken := access; Refreshed.user := user |} /\
    fst (logoutUser (Some token) w3) = Ok tt /\
    fst (refreshAccessToken K (Some token) w4) = Throw InvalidOrExpiredToken.
Proof.
  intros username email password w H W Hfree Hcmp id token user access
         Hne Hv Hfresh w1 w2 w3 w4.
  assert (Htr : truthy (Some token) = true).
  { simpl. apply negb_true_iff. apply String.eqb_neq. exact Hne. }
  (* register *)
  assert (Hno : forall r, In r (HMS_USERS (db w)) ->
                  U.USERNAME r <> username /\ U.EMAIL r <> email).
  { intros r Hin. destruct (Hfree r Hin) as (? & ? & ?). auto. }
  destruct (registerUser_fresh K username email password w H Hno)
    as (Hr1 & Hd1 & Hh1 & Hc1 & _).
  fold w1 in Hr1, Hd1, Hh1, Hc1.
  set (row := new_user_row w username email
                (hash_with_salt K (salts w) password SALT_ROUNDS)) in *.
  split; [exact Hr1|].
  (* login *)
  assert (Hf : find (matches_user username username) (HMS_USERS (db w1)) = Some row).
  { rewrite Hd1. simpl. apply find_snoc.
    - intros y Hy. destruct (Hfree y Hy) as (Hu & _ & He).
      unfold matches_user. apply String.eqb_neq in Hu, He. rewrite Hu, He. reflexivity.
    - unfold matches_user. simpl. rewrite String.eqb_refl. reflexivity. }
  assert (Hl : fst (loginUser K username password w1) =
               Ok {| Session.user := user; Session.accessToken := access;
                     Session.refreshToken := token |}).
  { rewrite (loginUser_accepts K username password w1 row Hh1 Hf).
    - rewrite Hc1. reflexivity.
    - exact Hcmp.
    - intros rt Hin. rewrite Hd1 in Hin. simpl in Hin. rewrite Hc1.
      apply Hfresh. exact Hin. }
  split; [exact Hl|].
  destruct (handle_steady K (Login username password) w1) as [Hc2 Hh2].
  simpl in Hc2, Hh2. fold w2 in Hc2, Hh2. specialize (Hh2 Hh1).
  assert (Hlogin : loginUser K username password w1 =
                   (Ok {| Session.user := user; Session.accessToken := access;
                          Session.refreshToken := token |}, w2)).
  { unfold w2. destruct (loginUser K username password w1) as [r2 w2'].
    simpl in *. rewrite Hl. reflexivity. }
  destruct (loginUser_Ok K _ _ _ _ _ Hlogin)
    as (user' & rest & Hf' & _ & _ & Htok & Husers & _ & _).
  assert (user' = row).
  { apply find_filter_head in Hf'. congruence. }
  subst user'. simpl in Htok.
  (* the store still satisfies the schema *)
  assert (Hsteps : steps K w w2).
  { apply steps_request with (Register username email password).
    apply steps_request with (Login username password). apply steps_done. }
  destruct (steps_db K w w2 Hsteps) as (_ & _ & _ & W2). specialize (W2 W).
  (* refresh *)
  set (rt := session_row (clock w1) row token) in *.
  assert (Hrt : In rt (HMS_REFRESH_TOKENS (db w2))).
  { rewrite Htok. apply in_or_app. right. left. reflexivity. }
  assert (Hrow : In row (HMS_USERS (db w2))).
  { rewrite Husers, Hd1. simpl. apply in_or_app. right. left. reflexivity. }
  assert (Hact : active (clock w2) token rt = true).
  { apply active_spec. simpl. repeat split.
    rewrite Hc2, Hc1. unfold addDays. lia. }
  split.
  { rewrite (refreshAccessToken_healthy K (Some token) w2 Hh2 Htr). simpl text.
    rewrite Hc2, Hc1.
    destruct (verify_refresh K (clock w) token); [|contradiction].
    rewrite <- Hc1, <- Hc2.
    rewrite (findActive_unique (clock w2) token (db w2) rt row W2 Hrt Hact Hrow eq_refl).
    rewrite Hc2, Hc1. reflexivity. }
  (* logout *)
  destruct (handle_steady K (Refresh (Some token)) w2) as [_ Hh3].
  simpl in Hh3. fold w3 in Hh3. specialize (Hh3 Hh2).
  destruct (logoutUser_healthy (Some token) w3 Hh3) as (Hout & Hh4 & Hd4).
  fold w4 in Hh4, Hd4.
  split; [exact Hout|].
  (* refresh again *)
  apply refreshAccessToken_rejects; auto.
  intros rt' Hin. apply inactive_cases. simpl. intros Ht'. left.
  rewrite Hd4, Htr in Hin. simpl in Hin.
  apply in_map_iff in Hin as (rt0 & <- & _).
  apply revoke_row_revoked.
  rewrite <- Ht'. symmetry. apply (ages_revoke token rt0).
Qed.

End Scenario.

(** ** A username that is someone's email *)

Section Shadowing.

Context (K : Primitives).

(** X19. Register compares the username with usernames and the email with
    emails only, while login compares its one identifier with both
    columns and takes the first row.  So a username that an earlier user
    has as email can be registered, and the login of the new user by that
    username is then checked against the earlier user's password hash: it
    fails with InvalidCredentials if that hash does not verify the
    password, and otherwise logs in the earlier user. *)
Theorem username_shadowed_by_earlier_email :
  forall username email password w earlier,
    healthy w ->
    (forall r, In r (HMS_USERS (db w)) ->
               U.USERNAME r <> username /\ U.EMAIL r <> email) ->
    find (matches_user username username) (HMS_USERS (db w)) = Some earlier ->
    (exists r, fst (registerUser K username email password w) = Ok r) /\
    U.EMAIL earlier = username /\
    forall w',
      db w' = db (snd (registerUser K username email password w)) ->
      healthy w' ->
      (compare_hash K password (U.PASSWORD_HASH earlier) = false ->
       fst (loginUser K username password w') = Throw InvalidCredentials) /\
      (forall s, fst (loginUser K username password w') = Ok s ->
                 Session.user s = identity earlier /\
                 User.username (Session.user s) <> username).
Proof.
  intros username email password w earlier H Hno Hf.
  destruct (registerUser_fresh K username email password w H Hno)
    as (Hr & Hd & _).
  pose proof (find_some _ _ Hf) as [Hin Hm].
  destruct (Hno earlier Hin) as [Hu _].
  assert (He : U.EMAIL earlier = username).
  { unfold matches_user in Hm. apply orb_true_iff in Hm as [Hm|Hm];
      apply String.eqb_eq in Hm; [contradiction | exact Hm]. }
  split; [eauto|]. split; [exact He|].
  intros w' Hdb Hh'.
  assert (Hf' : find (matches_user username username) (HMS_USERS (db w')) = Some earlier).
  { rewrite Hdb, Hd. simpl.
    clear - Hf. induction (HMS_USERS (db w)) as [|a l IH]; simpl in *; [discriminate|].
    destruct (matches_user username username a); [exact Hf | auto]. }
  destruct (filter_head_find _ _ _ Hf') as [rest Hrest].
  split.
  - intros Hcmp.
    exact (loginUser_healthy K username password w' Hh' (earlier :: rest) Hrest Hcmp).
  - intros s Hs.
    destruct (loginUser K username password w') as [r2 w2] eqn:E. simpl in Hs. subst r2.
    destruct (loginUser_Ok K _ _ _ _ _ E) as (user & rest' & Hfu & _ & _ & _ & _ & _ & ->).
    assert (user = earlier) by congruence. subst user. simpl.
    split; [reflexivity | exact Hu].
Qed.

End Shadowing.

(** ** A transaction of one statement *)

(** X20. A statement run inside executeTransaction on a store with no
    fault pending: the transaction returns without a value when the store
    accepts the statement, whose rows are dropped, and throws the store's
    rejection after a rollback when it does not.  Either way the database
    is what the statement left and no connection stays leased. *)
Theorem transaction_of_one_statement :
  forall {A} (sql : Statement A) (w : World),
    healthy w -> pool_wf w ->
    let run := executeTransaction (fun c => connection_execute c sql) w in
    fst run =
      match run_statement sql (clock w) (db w) with
      | inl code => Throw (DriverError code)
      | inr _ => Ok tt
      end /\
    db (snd run) =
      match run_statement sql (clock w) (db w) with
      | inl _ => db w
      | inr (_, d) => d
      end /\
    leased (snd run) = leased w /\
    (exists c events,
       trace (snd run) = EvRelease c :: events /\
       hd_error events =
         Some (match run_statement sql (clock w) (db w) with
               | inl _ => EvRollback c
               | inr _ => EvCommit c
               end)).
Proof.
  intros A sql w H W run. unfold run.
  destruct w as [d ck p l n sc sa tr]. unfold healthy in H. simpl in H. subst sc.
  unfold pool_wf in W. simpl in W.
  pose proof (remove_fresh n l W) as Hrm. simpl in Hrm.
  unfold_transaction. unfold_connection.
  destruct p; simpl;
    destruct (run_statement sql ck d) as [code|[rows d']]; simpl;
    rewrite ?Hrm; repeat split; eauto.
Qed.

(** * More concrete runs *)

Lemma w_two_tokens : HMS_REFRESH_TOKENS (db w_two) = [].
Proof. vm_compute. reflexivity. Qed.

Lemma w_two_counter : AUTO_INCREMENT (db w_two) = 3.
Proof. vm_compute. reflexivity. Qed.

Lemma w_two_leased : leased w_two = [].
Proof. vm_compute. reflexivity. Qed.

Lemma w_two_fresh username email :
  username <> "bob" -> username <> "alice" ->
  email <> "a@x.com" -> email <> "b@x.com" ->
  forall r, In r (HMS_USERS (db w_two)) ->
            U.USERNAME r <> username /\ U.EMAIL r <> email.
Proof.
  intros H1 H2 H3 H4 r Hin. rewrite w_two_users in Hin.
  destruct Hin as [<-|[<-|[]]]; simpl; split; congruence.
Qed.

Lemma carol_registered :
  registerUser demo "carol" "c@x.com" "pw3" w_two = (Ok carol, w_carol).
Proof. vm_compute. reflexivity. Qed.

Lemma w_carol_healthy : healthy w_carol.
Proof. vm_compute. reflexivity. Qed.

Lemma w_session_users : HMS_USERS (db w_session) = [bob_row; alice_row].
Proof. vm_compute. reflexivity. Qed.

(** carol registers: neither her username nor her email is taken. *)
Lemma register_succeeds_iff_fresh_witness :
  healthy w_two /\
  fst (registerUser demo "carol" "c@x.com" "pw3" w_two) =
    Ok {| Registered.id := AUTO_INCREMENT (db w_two);
          Registered.username := "carol"; Registered.email := "c@x.com";
          Registered.createdAt := clock w_two |}.
Proof.
  split; [exact w_two_healthy|].
  destruct (register_succeeds_iff_fresh demo "carol" "c@x.com" "pw3" w_two
              w_two_healthy) as (_ & Hok).
  destruct Hok as (Hr & _).
  - apply w_two_fresh; discriminate.
  - exact Hr.
Defined.

(** The driver faults on the re-fetch: register throws, and carol's row is
    there all the same. *)
Lemma register_may_insert_then_throw_witness :
  fst (registerUser demo "carol" "c@x.com" "pw3" w_flaky) =
    Throw (DriverError "ECONNRESET") /\
  exists row,
    HMS_USERS (db (snd (registerUser demo "carol" "c@x.com" "pw3" w_flaky))) =
      HMS_USERS (db w_flaky) ++ [row] /\
    U.USERNAME row = "carol" /\ U.EMAIL row = "c@x.com".
Proof.
  assert (E : registerUser demo "carol" "c@x.com" "pw3" w_flaky =
              (Throw (DriverError "ECONNRESET"),
               snd (registerUser demo "carol" "c@x.com" "pw3" w_flaky)))
    by (vm_compute; reflexivity).
  assert (L1 : List.length
                 (HMS_USERS (db (snd (registerUser demo "carol" "c@x.com" "pw3" w_flaky))))
               = 3%nat) by (vm_compute; reflexivity).
  assert (L0 : List.length (HMS_USERS (db w_flaky)) = 2%nat)
    by (vm_compute; reflexivity).
  split; [vm_compute; reflexivity|].
  destruct (register_may_insert_then_throw demo "carol" "c@x.com" "pw3" w_flaky _ _ E)
    as [Hsame | (_ & Hrow & _)].
  - rewrite Hsame, L0 in L1. discriminate L1.
  - exact Hrow.
Defined.

(** A wrong password leaves the database as it was. *)
Lemma login_failure_writes_nothing_witness :
  fst (loginUser demo "alice" "wrongpass" w_two) = Throw InvalidCredentials /\
  db (snd (loginUser demo "alice" "wrongpass" w_two)) = db w_two.
Proof.
  assert (E : loginUser demo "alice" "wrongpass" w_two =
              (Throw InvalidCredentials, snd (loginUser demo "alice" "wrongpass" w_two)))
    by (vm_compute; reflexivity).
  split; [vm_compute; reflexivity|].
  exact (proj1 (login_failure_writes_nothing demo "alice" "wrongpass" w_two _ _ E)).
Defined.

(** carol logs in by email right after registering. *)
Lemma register_then_login_witness :
  exists s,
    fst (loginUser demo "c@x.com" "pw3" w_carol) = Ok s /\
    User.id (Session.user s) = Registered.id carol /\
    User.username (Session.user s) = "carol".
Proof.
  destruct (register_then_login demo "carol" "c@x.com" "pw3" w_two carol w_carol
              w_two_healthy carol_registered) with (identifier := "c@x.com") (w' := w_carol)
    as (s & Hs & Hid & _ & _ & Hu & _).
  - vm_compute. reflexivity.
  - right. reflexivity.
  - intros u Hin. rewrite w_two_users in Hin.
    destruct Hin as [<-|[<-|[]]]; simpl; split; discriminate.
  - reflexivity.
  - exact w_carol_healthy.
  - intros rt Hin. rewrite w_two_tokens in Hin. destruct Hin.
  - exists s. auto.
Defined.

(** carol is found under the id register gave her. *)
Lemma register_then_get_user_by_id_witness :
  fst (getUserById (Registered.id carol) w_carol) =
    Ok {| Profile.id := Registered.id carol; Profile.username := "carol";
          Profile.email := "c@x.com"; Profile.createdAt := clock w_two;
          Profile.updatedAt := clock w_two |}.
Proof.
  apply (register_then_get_user_by_id demo "carol" "c@x.com" "pw3" w_two carol
           w_carol w_carol).
  - exact w_two_healthy.
  - rewrite w_two_users, w_two_counter.
    repeat constructor.
  - exact carol_registered.
  - reflexivity.
  - exact w_carol_healthy.
Defined.

(** The refresh of alice's open session is signed over alice's row. *)
Lemma refresh_signs_stored_identity_witness :
  fst (refreshAccessToken demo (Some "rt.2.1000") w_session) =
    Ok {| Refreshed.accessToken :=
            sign_access demo (clock w_session)
              {| AccessClaims.userId := U.ID alice_row;
                 AccessClaims.username := U.USERNAME alice_row;
                 AccessClaims.email := U.EMAIL alice_row |};
          Refreshed.user :=
            {| User.id := U.ID alice_row; User.username := U.USERNAME alice_row;
               User.email := U.EMAIL alice_row |} |}.
Proof.
  apply (refresh_signs_stored_identity demo "rt.2.1000" w_session
           (alice_session_row false) alice_row).
  - exact w_session_healthy.
  - exact w_session_wf.
  - discriminate.
  - vm_compute. discriminate.
  - rewrite w_session_tokens. left. reflexivity.
  - reflexivity.
  - reflexivity.
  - vm_compute. reflexivity.
  - rewrite w_session_users. right. left. reflexivity.
  - reflexivity.
Defined.

(** alice's session survives the logout of another token. *)
Lemma session_survives_other_requests_witness :
  usable 1000 "rt.2.1000" (db (handle demo (Logout (Some "rt.1.1000")) w_session)).
Proof.
  apply (session_survives_other_requests demo (Logout (Some "rt.1.1000")) w_session).
  - exists (alice_session_row false). rewrite w_session_tokens.
    split; [left; reflexivity|]. simpl. repeat split.
  - intros t [= <-] _. discriminate.
Defined.

(** alice's row is the same after she has logged in. *)
Lemma user_rows_never_change_witness :
  nth_error (HMS_USERS (db w_session)) 1 = Some alice_row.
Proof.
  apply (user_rows_never_change demo w_two w_session w_session_reached).
  rewrite w_two_users. reflexivity.
Defined.

(** The two-user world, reached from the empty database, satisfies the
    schema. *)
Lemma reachable_states_keep_the_schema_witness : db_wf (db w_two).
Proof.
  apply (proj2 (reachable_states_keep_the_schema demo boot w_two w_two_reached)).
  reflexivity.
Defined.

(** A login leaves no connection leased. *)
Lemma requests_leak_no_connection_witness :
  pool_wf w_two /\
  leased (handle demo (Login "alice" "pw1") w_two) = leased w_two.
Proof.
  assert (W : pool_wf w_two).
  { unfold pool_wf. rewrite w_two_leased. constructor. }
  split; [exact W|].
  exact (proj1 (proj2 (requests_leak_no_connection demo (Login "alice" "pw1") w_two W))).
Defined.

(** The callback throws, the rollback faults: the rollback's error is the
    one thrown. *)
Lemma rollback_fault_replaces_the_error_witness :
  fst (executeTransaction failing_callback w_tx) = Throw (DriverError "EPIPE").
Proof.
  assert (Hget : getConnection w_tx = (Ok 0%nat, snd (getConnection w_tx)))
    by (vm_compute; reflexivity).
  assert (Hbegin : connection_beginTransaction 0%nat (snd (getConnection w_tx)) =
                   (Ok tt, snd (connection_beginTransaction 0%nat (snd (getConnection w_tx)))))
    by (vm_compute; reflexivity).
  destruct (rollback_fault_replaces_the_error failing_callback w_tx 0%nat _ _ Hget Hbegin)
    as (Hthrow & _).
  apply (Hthrow (JsError "callback failed")
           (snd (connection_beginTransaction 0%nat (snd (getConnection w_tx))))
           "EPIPE" []).
  - reflexivity.
  - vm_compute. reflexivity.
Defined.

(** carol registers, logs in, refreshes, logs out, and is refused. *)
Lemma register_login_refresh_logout_witness :
  fst (logoutUser (Some (sign_refresh demo (clock w_two)
                           {| RefreshClaims.userId := AUTO_INCREMENT (db w_two) |}))
         (snd (refreshAccessToken demo
                 (Some (sign_refresh demo (clock w_two)
                          {| RefreshClaims.userId := AUTO_INCREMENT (db w_two) |}))
                 (snd (loginUser demo "carol" "pw3"
                         (snd (registerUser demo "carol" "c@x.com" "pw3" w_two)))))))
    = Ok tt.
Proof.
  destruct (register_login_refresh_logout demo "carol" "c@x.com" "pw3" w_two
              w_two_healthy w_two_wf) as (_ & _ & _ & Hout & _).
  - intros r Hin. rewrite w_two_users in Hin.
    destruct Hin as [<-|[<-|[]]]; simpl; repeat split; discriminate.
  - vm_compute. reflexivity.
  - vm_compute. discriminate.
  - vm_compute. discriminate.
  - intros rt Hin. rewrite w_two_tokens in Hin. destruct Hin.
  - exact Hout.
Defined.

(** The user who took bob's email as username cannot log in by it. *)
Lemma username_shadowed_by_earlier_email_witness :
  U.EMAIL bob_row = "a@x.com" /\
  fst (loginUser demo "a@x.com" "pw4" w_shadow) = Throw InvalidCredentials.
Proof.
  destruct (username_shadowed_by_earlier_email demo "a@x.com" "d@x.com" "pw4" w_two
              bob_row w_two_healthy) as (_ & He & Hlogin).
  - apply w_two_fresh; discriminate.
  - rewrite w_two_users. reflexivity.
  - split; [exact He|].
    destruct (Hlogin w_shadow) as (Hfail & _).
    + reflexivity.
    + vm_compute. reflexivity.
    + apply Hfail. vm_compute. reflexivity.
Defined.

(** One SELECT in a transaction on a fresh process. *)
Lemma transaction_of_one_statement_witness :
  fst (executeTransaction (fun c => connection_execute c (getUserByIdSql 1)) boot) = Ok tt.
Proof.
  assert (H : healthy boot) by reflexivity.
  assert (W : pool_wf boot) by constructor.
  exact (proj1 (transaction_of_one_statement (getUserByIdSql 1) boot H W)).
Defined.
